(** * pyxmatlab_tools.sync: the lock compatibility check and the full relock

    A shallow embedding of [scripts/pyxmatlab_tools/sync.py].  Text is
    modelled by [string] (characters are the code points below 256; what
    is said of character classes is said of texts of such characters), the
    subprocess calls by an oracle indexed by a logical clock, the file
    system by a finite map from paths to contents, and exceptions by an
    error monad that keeps the world reached when the exception was
    raised. *)

From Stdlib Require Import Ascii String List Bool Arith ZArith Lia.
From stdpp Require Import base gmap strings list.

(** ** Text: the [str] methods the module uses *)

Module Text.

Definition LF : ascii := Ascii.ascii_of_nat 10.
Definition CR : ascii := Ascii.ascii_of_nat 13.
Definition nl : string := String LF EmptyString.

Definition code (c : ascii) : nat := Ascii.nat_of_ascii c.

Definition in_range (lo hi : nat) (c : ascii) : bool :=
  (lo <=? code c) && (code c <=? hi).

(** [str.isspace] on one character, which is also what [\s] matches. *)
Definition isspace (c : ascii) : bool :=
  in_range 9 13 c || in_range 28 32 c || (code c =? 133) || (code c =? 160).

(** The line boundaries of [str.splitlines]. *)
Definition is_linebreak (c : ascii) : bool :=
  in_range 10 13 c || in_range 28 30 c || (code c =? 133).

(** The word characters of [\b]: alphanumerics and the underscore. *)
Definition is_word (c : ascii) : bool :=
  in_range 48 57 c || in_range 65 90 c || (code c =? 95) || in_range 97 122 c
  || (code c =? 170) || in_range 178 179 c || (code c =? 181)
  || in_range 185 186 c || in_range 188 190 c
  || in_range 192 214 c || in_range 216 246 c || in_range 248 255 c.

Definition is_ascii_alnum (c : ascii) : bool :=
  in_range 48 57 c || in_range 65 90 c || in_range 97 122 c.

Definition lower (c : ascii) : ascii :=
  if in_range 65 90 c then Ascii.ascii_of_nat (code c + 32) else c.

Definition chr_eqb (a b : ascii) : bool := Ascii.eqb a b.

Definition not_newline (c : ascii) : bool := negb (chr_eqb c LF).

Fixpoint lstrip (s : string) : string :=
  match s with
  | EmptyString => EmptyString
  | String c s' => if isspace c then lstrip s' else s
  end.

Fixpoint rstrip (s : string) : string :=
  match s with
  | EmptyString => EmptyString
  | String c s' =>
      match rstrip s' with
      | EmptyString => if isspace c then EmptyString else String c EmptyString
      | r => String c r
      end
  end.

(** [s.strip()] *)
Definition strip (s : string) : string := rstrip (lstrip s).

(** [s.split(sep)] for a one-character separator. *)
Fixpoint split (sep : ascii) (s : string) : list string :=
  match s with
  | EmptyString => [EmptyString]
  | String c s' =>
      if chr_eqb c sep then EmptyString :: split sep s'
      else match split sep s' with
           | h :: t => String c h :: t
           | [] => [String c EmptyString]
           end
  end.

(** [s.splitlines()]; [after_cr] remembers that the previous character was
    a carriage return, so that the line feed of a CR LF is not a second
    boundary. *)
Fixpoint splitlines_from (after_cr : bool) (s : string) : list string :=
  match s with
  | EmptyString => []
  | String c s' =>
      if after_cr && chr_eqb c LF then splitlines_from false s'
      else if is_linebreak c then EmptyString :: splitlines_from (chr_eqb c CR) s'
      else match splitlines_from false s' with
           | h :: t => String c h :: t
           | [] => [String c EmptyString]
           end
  end.

Definition splitlines (s : string) : list string := splitlines_from false s.

(** [sep.join(l)] *)
Fixpoint join (sep : string) (l : list string) : string :=
  match l with
  | [] => EmptyString
  | [x] => x
  | x :: l' => x +:+ sep +:+ join sep l'
  end.

(** [sub in s] *)
Fixpoint contains (sub s : string) : bool :=
  String.prefix sub s ||
  match s with
  | EmptyString => false
  | String _ s' => contains sub s'
  end.

(** The text up to the first line feed. *)
Fixpoint first_line (s : string) : string :=
  match s with
  | EmptyString => EmptyString
  | String c s' => if chr_eqb c LF then EmptyString else String c (first_line s')
  end.

(** Every line followed by a line feed. *)
Fixpoint unlines (l : list string) : string :=
  match l with
  | [] => EmptyString
  | x :: l' => x +:+ nl +:+ unlines l'
  end.

End Text.

(** ** [shlex]: where [split] raises, and [quote]

    [shlex.split], in POSIX mode and without comment characters, raises
    [ValueError] exactly when the text ends inside a quotation or right
    after an escape character.  Of the result only this is kept: the
    words themselves go to the subprocess, which the oracle stands for. *)

Module Shlex.
Import Text.

Definition SQUOTE : ascii := Ascii.ascii_of_nat 39.
Definition DQUOTE : ascii := Ascii.ascii_of_nat 34.
Definition BACKSLASH : ascii := Ascii.ascii_of_nat 92.

(** The states of [shlex.read_token] that decide it: outside a quotation,
    inside single quotes, inside double quotes, after an escape character
    outside a quotation or inside double quotes. *)
Inductive state : Type := Plain | Single | Double | EscPlain | EscDouble.

Definition step (st : state) (c : ascii) : state :=
  match st with
  | Plain =>
      if chr_eqb c BACKSLASH then EscPlain
      else if chr_eqb c SQUOTE then Single
      else if chr_eqb c DQUOTE then Double
      else Plain
  | Single => if chr_eqb c SQUOTE then Plain else Single
  | Double =>
      if chr_eqb c DQUOTE then Plain
      else if chr_eqb c BACKSLASH then EscDouble
      else Double
  | EscPlain => Plain
  | EscDouble => Double
  end.

Fixpoint scan (st : state) (s : string) : state :=
  match s with
  | EmptyString => st
  | String c s' => scan (step st c) s'
  end.

(** [shlex.split(s)] returns *)
Definition splits (s : string) : bool :=
  match scan Plain s with
  | Plain => true
  | _ => false
  end.

(** [[\w@%+=:,./-]] under [re.ASCII] *)
Definition is_safe (c : ascii) : bool :=
  is_ascii_alnum c || existsb (chr_eqb c) (list_ascii_of_string "_@%+=:,./-").

(** [s.replace(SQUOTE, SQUOTE DQUOTE SQUOTE DQUOTE SQUOTE)] *)
Fixpoint requote (s : string) : string :=
  match s with
  | EmptyString => EmptyString
  | String c s' =>
      if chr_eqb c SQUOTE
      then String SQUOTE (String DQUOTE (String SQUOTE (String DQUOTE
             (String SQUOTE (requote s')))))
      else String c (requote s')
  end.

(** [shlex.quote(s)] *)
Definition quote (s : string) : string :=
  match s with
  | EmptyString => String SQUOTE (String SQUOTE EmptyString)
  | _ =>
      if forallb is_safe (list_ascii_of_string s) then s
      else String SQUOTE (requote s +:+ String SQUOTE EmptyString)
  end.

End Shlex.

(** ** Regular expressions: the fragment of [re] the module's patterns use

    A backtracking matcher in continuation-passing style.  The cursor is a
    zipper: [bef] holds the text before the position, reversed, and [aft]
    the text from the position on.  Repetition is greedy and ranges over
    one-character classes, which is all the patterns of the module need. *)

Module Re.
Import Text.

Inductive regex : Type :=
| Chr (p : ascii -> bool)
| Rep (min : nat) (p : ascii -> bool)
| Seq (r1 r2 : regex)
| Alt (r1 r2 : regex)
| Grp (name : string) (r : regex)
| Bol
| Eol
| Wordb
| Eps.

Record Match : Type := mkMatch {
  m_start : nat;
  m_group : string;
  m_groups : list (string * string)
}.

(** [m[name]] *)
Definition group_named (m : Match) (name : string) : option string :=
  snd <$> List.find (fun g => String.eqb (fst g) name) (m_groups m).

(** [m.groups()] *)
Definition groups (m : Match) : list string := map snd (m_groups m).

(** The text between an earlier cursor [bef] and a later one [bef']. *)
Definition taken (bef bef' : string) : string :=
  String.rev (String.substring 0 (String.length bef' - String.length bef) bef').

Definition at_bol (bef : string) : bool :=
  match bef with
  | EmptyString => true
  | String c _ => chr_eqb c LF
  end.

Definition at_eol (aft : string) : bool :=
  match aft with
  | EmptyString => true
  | String c _ => chr_eqb c LF
  end.

Definition word_at (s : string) : bool :=
  match s with
  | EmptyString => false
  | String c _ => is_word c
  end.

Definition at_wordb (bef aft : string) : bool := xorb (word_at bef) (word_at aft).

Section Exec.
Context {R : Type}.

Fixpoint rep_greedy (p : ascii -> bool) (min n : nat) (bef aft : string)
    (k : string -> string -> option R) : option R :=
  match aft with
  | String c aft' =>
      if p c then
        match rep_greedy p min (S n) (String c bef) aft' k with
        | Some r => Some r
        | None => if min <=? n then k bef aft else None
        end
      else if min <=? n then k bef aft else None
  | EmptyString => if min <=? n then k bef aft else None
  end.

Fixpoint exec (r : regex) (bef aft : string) (caps : list (string * string))
    (k : string -> string -> list (string * string) -> option R) : option R :=
  match r with
  | Chr p =>
      match aft with
      | String c aft' => if p c then k (String c bef) aft' caps else None
      | EmptyString => None
      end
  | Rep min p => rep_greedy p min 0 bef aft (fun b a => k b a caps)
  | Seq r1 r2 => exec r1 bef aft caps (fun b a cs => exec r2 b a cs k)
  | Alt r1 r2 =>
      match exec r1 bef aft caps k with
      | Some x => Some x
      | None => exec r2 bef aft caps k
      end
  | Grp name r1 =>
      exec r1 bef aft caps (fun b a cs => k b a (cs ++ [(name, taken bef b)]))
  | Bol => if at_bol bef then k bef aft caps else None
  | Eol => if at_eol aft then k bef aft caps else None
  | Wordb => if at_wordb bef aft then k bef aft caps else None
  | Eps => k bef aft caps
  end.

End Exec.

(** A match starting at the cursor, with the cursor it ends at. *)
Definition match_at (r : regex) (bef aft : string) : option (Match * (string * string)) :=
  exec r bef aft []
    (fun b a cs => Some (mkMatch (String.length bef) (taken bef b) cs, (b, a))).

(** The leftmost match at or after the cursor. *)
Fixpoint search_from (r : regex) (bef aft : string) : option (Match * (string * string)) :=
  match match_at r bef aft with
  | Some m => Some m
  | None =>
      match aft with
      | String c aft' => search_from r (String c bef) aft'
      | EmptyString => None
      end
  end.

(** [re.search(r, s)] *)
Definition search (r : regex) (s : string) : option Match :=
  fst <$> search_from r EmptyString s.

(** [re.finditer(r, s)], as the list of its matches.  After a match the scan
    resumes where it ended; an empty match (none of the module's patterns
    has one) moves the cursor one character on. *)
Fixpoint finditer_from (fuel : nat) (r : regex) (bef aft : string) : list Match :=
  match fuel with
  | O => []
  | S fuel' =>
      match search_from r bef aft with
      | None => []
      | Some (m, (b, a)) =>
          m :: match m_group m, a with
               | EmptyString, String c a' => finditer_from fuel' r (String c b) a'
               | EmptyString, EmptyString => []
               | _, _ => finditer_from fuel' r b a
               end
      end
  end.

Definition finditer (r : regex) (s : string) : list Match :=
  finditer_from (S (String.length s)) r EmptyString s.

(** A literal string, compared exactly or ignoring case. *)
Fixpoint lit (s : string) : regex :=
  match s with
  | EmptyString => Eps
  | String c s' => Seq (Chr (chr_eqb c)) (lit s')
  end.

Definition seq (l : list regex) : regex := foldr Seq Eps l.

End Re.

(** ** The module's patterns *)

Module Pat.
Import Text Re.

Definition non_space (c : ascii) : bool := negb (isspace c).

(** [[A-Z0-9._-]] under the ignore-case flag *)
Definition name_char (c : ascii) : bool :=
  is_ascii_alnum c || chr_eqb c "."%char || chr_eqb c "_"%char || chr_eqb c "-"%char.

(** [(?m)^# uv\s(?P<version>.+)$] *)
Definition UV_PAT : regex :=
  seq [Bol; lit "# uv"; Chr isspace; Grp "version" (Rep 1 not_newline); Eol].

(** [(?m)^# submodules/(?P<name>[^\s]+)\s(?P<rev>[^\s]+)$] *)
Definition SUB_PAT : regex :=
  seq [Bol; lit "# submodules/"; Grp "name" (Rep 1 non_space); Chr isspace;
       Grp "rev" (Rep 1 non_space); Eol].

(** [(?mi)^(?P<name>[A-Z0-9]|[A-Z0-9][A-Z0-9._-]*[A-Z0-9])==.+$], on texts
    of code points below 256, where the letters [[A-Z]] matches when case
    is ignored are the ASCII ones.  (Beyond them it also matches U+0130,
    U+0131, U+017F and U+212A, which such texts do not hold.) *)
Definition DEP_PAT : regex :=
  seq [Bol;
       Grp "name" (Alt (Chr is_ascii_alnum)
                       (seq [Chr is_ascii_alnum; Rep 0 name_char; Chr is_ascii_alnum]));
       lit "=="; Rep 1 not_newline; Eol].

(** A dependency name spliced into a pattern as it stands: a full stop is
    the any-character wildcard, every other character of a name stands for
    itself, compared ignoring case. *)
Fixpoint name_regex (name : string) : regex :=
  match name with
  | EmptyString => Eps
  | String c name' =>
      Seq (if chr_eqb c "."%char then Chr not_newline
           else Chr (fun t => chr_eqb (lower t) (lower c)))
          (name_regex name')
  end.

(** [rf"(?mi)^(?P<name>{direct['name']})==(?P<ver>.+$)"] *)
Definition direct_pat (name : string) : regex :=
  seq [Bol; Grp "name" (name_regex name); lit "==";
       Grp "ver" (Seq (Rep 1 not_newline) Eol)].

(** [submodules/.+\b] *)
Definition SUBMODULE_REF : regex :=
  seq [lit "submodules/"; Rep 1 not_newline; Wordb].

(** [(?m)^(?:-e|--editable)\s(?P<path>.+)$] *)
Definition EDITABLE_PAT : regex :=
  seq [Bol; Alt (lit "-e") (lit "--editable"); Chr isspace;
       Grp "path" (Rep 1 not_newline); Eol].

End Pat.

(** ** The world the module runs in *)

(** [subprocess.CompletedProcess], with its captured streams *)
Record CompletedProcess : Type := mkProc {
  returncode : Z;
  stdout : string;
  stderr : string
}.

(** The three command lines the module runs, as the oracle is asked about
    them.  The remaining words of the [bin/uv pip compile] line (the
    [--exclude-newer] instant, the override file, [--all-extras] and the
    input files) are fixed by the instant of the call and by the
    configuration files; the text of the line is [compile_line] below. *)
Inductive command : Type :=
| UvVersion
| UvPipCompile (platform python_version : string) (high no_deps : bool)
| GitRevParse (sub : string).

Inductive exn : Type :=
| RuntimeError (msg : string)
| CalledProcessError (cmd : command) (res : CompletedProcess)
| IndexError
| JSONDecodeError
| AttributeError
| TypeError
| ValueError.

(** The text a failed subprocess left on its error stream, as the
    exception carries it. *)
Definition error_text (e : exn) : option string :=
  match e with
  | RuntimeError msg => Some msg
  | CalledProcessError _ res => Some (stderr res)
  | _ => None
  end.

(** The [return] statements of [check_compilation], named after the
    comments they carry in the source. *)
Inductive site : Type :=
| Old_compilation_missing
| Unknown_uv_version
| Older_uv_version
| Submodule_missing
| Submodule_sha_mismatch
| Direct_dependency_missing
| Direct_dependency_version_mismatch
| Old_compilation_compatible.

(** What an observer of a run sees: the subprocesses with their results,
    the files written, the calls of [lock] and the [return] statement
    [check_compilation] leaves through. *)
Inductive event : Type :=
| EvRun (c : command) (res : CompletedProcess)
| EvWrite (path data : string)
| EvLock (high : bool) (sys_compilation : string)
| EvReturn (s : site).

Record World : Type := mkWorld {
  clock : nat;
  fs : gmap string string;
  trace : list event
}.

(** A value of the decoded store: a string, or anything else, of which the
    module only sees the truth value. *)
Inductive value : Type :=
| VStr (s : string)
| VOther (truth : bool).

(** A decoded JSON document: an object, or a value without [get]. *)
Inductive document : Type :=
| JObject (contents : gmap string value)
| JOther.

(** What is fixed during a run: the platform constants, the text of the
    two requirement files the fragments are built from ([requirements/dev.in]
    and [requirements/nodeps.in], which the module reads and never writes),
    the subprocess oracle (the result of a command line run at a given
    instant), the [json] codec, and the two library values that enter the
    text of the resolver's command line: [exclude_newer t] is
    [datetime.now(UTC).isoformat().replace('+00:00', 'Z')] at the instant
    [t], and [pyproject path] is
    [(Path(path) / 'pyproject.toml').as_posix()].  The programs are taken
    to start and the requirement files to be there, so that every
    subprocess completes with an exit code. *)
Record Env : Type := mkEnv {
  SYS_PLATFORM : string;
  SYS_PYTHON_VERSION : string;
  PYTHON_VERSIONS : list string;
  DEV_text : string;
  NODEPS_text : string;
  proc : nat -> command -> CompletedProcess;
  loads : string -> option document;
  dumps : gmap string string -> string;
  exclude_newer : nat -> string;
  pyproject : string -> string
}.

(** Supported platforms. *)
Definition PLATFORMS : list string := ["linux"; "macos"; "windows"].

(** ** The error-and-state monad *)

Inductive result (A : Type) : Type :=
| Ok (a : A)
| Raise (e : exn).
Arguments Ok {A} a.
Arguments Raise {A} e.

Definition M (A : Type) : Type := World -> result A * World.

Definition ret {A} (a : A) : M A := fun w => (Ok a, w).
Definition raise {A} (e : exn) : M A := fun w => (Raise e, w).
Definition bind {A B} (m : M A) (k : A -> M B) : M B :=
  fun w => match m w with
           | (Ok a, w') => k a w'
           | (Raise e, w') => (Raise e, w')
           end.

Notation "'let*' x ':=' m 'in' k" := (bind m (fun x => k))
  (at level 10, x name, m at level 100, k at level 200).
Notation "m ';;' k" := (bind m (fun _ => k))
  (at level 100, k at level 200, right associativity).

Definition emit (e : event) : M unit :=
  fun w => (Ok tt, mkWorld (clock w) (fs w) (trace w ++ [e])).

(** [Path.write_text] *)
Definition write_text (path data : string) : M unit :=
  fun w => (Ok tt, mkWorld (clock w) (<[path := data]> (fs w))
                           (trace w ++ [EvWrite path data])).

(** ** The module *)

Section Sync.
Import Text Re Pat.
Context (E : Env).

(** [subprocess.run(..., capture_output=True, text=True, check=check)] *)
Definition run (check : bool) (c : command) : M CompletedProcess :=
  fun w =>
    let res := proc E (clock w) c in
    let w' := mkWorld (S (clock w)) (fs w) (trace w ++ [EvRun c res]) in
    if check && negb (returncode res =? 0)%Z
    then (Raise (CalledProcessError c res), w')
    else (Ok res, w').

Definition get_uv_version : M string :=
  let* result := run false UvVersion in
  if negb (returncode result =? 0)%Z then raise (RuntimeError (stderr result))
  else match split " "%char (strip (stdout result)) with
       | _ :: version :: _ => ret version
       | _ => raise IndexError
       end.

Definition get_lockfile (high : bool) : string :=
  "lock" +:+ (if high then "-high" else EmptyString) +:+ ".json".

Definition get_compilation_key (platform python_version : string) (high : bool) : string :=
  join "_" ([platform; python_version] ++ (if high then ["high"] else [])).

Definition get_compilation (platform python_version : string) (high : bool) : M value :=
  fun w =>
    let lockfile := get_lockfile high in
    match fs w !! lockfile with
    | None => (Ok (VStr EmptyString), w)
    | Some text =>
        match loads E text with
        | None => (Raise JSONDecodeError, w)
        | Some JOther => (Raise AttributeError, w)
        | Some (JObject contents) =>
            (Ok (default (VStr EmptyString)
                   (contents !! get_compilation_key platform python_version high)), w)
        end
    end.

(** [m[name]]; every named group of the module's patterns takes part in
    every match. *)
Definition group (m : Match) (name : string) : string :=
  default EmptyString (group_named m name).

(** The instant of a call. *)
Definition instant : M nat := fun w => (Ok (clock w), w).

(** [shlex.split(line)], of which only the failure is kept. *)
Definition shlex_split (line : string) : M unit :=
  if Shlex.splits line then ret tt else raise ValueError.

(** [escape(path)], given the text [Path(path).as_posix()] *)
Definition escape (posix : string) : string := Shlex.quote posix.

(** The text [compile] joins and hands to [shlex.split]. *)
Definition compile_line (t : nat) (platform python_version : string)
    (high no_deps : bool) : string :=
  join " "
    (["bin/uv pip compile";
      "--exclude-newer " +:+ exclude_newer E t;
      "--python-platform " +:+ platform +:+ " --python-version " +:+ python_version;
      "--resolution " +:+ (if high then "highest" else "lowest-direct");
      "--override " +:+ escape "requirements/override.txt";
      "--all-extras " +:+ (if no_deps then "--no-deps" else EmptyString)]
     ++ escape "requirements/dev.in"
        :: map (fun editable => escape (pyproject E (group editable "path")))
             (finditer EDITABLE_PAT (DEV_text E))).

(** [f'git rev-parse HEAD:{sub.group()}'] *)
Definition rev_parse_line (sub : string) : string := "git rev-parse HEAD:" +:+ sub.

(** [d[k] = v] on a dictionary that keeps its insertion order. *)
Fixpoint dict_set (k v : string) (d : list (string * string)) : list (string * string) :=
  match d with
  | [] => [(k, v)]
  | (k', v') :: d' => if String.eqb k' k then (k, v) :: d' else (k', v') :: dict_set k v d'
  end.

(** The dictionary comprehension of [compile]: one [git rev-parse] for
    every submodule reference of the development requirements, its
    command line first cut by [shlex.split]. *)
Fixpoint submodule_revs (subs : list Match) (submodules : list (string * string))
    : M (list (string * string)) :=
  match subs with
  | [] => ret submodules
  | sub :: subs' =>
      shlex_split (rev_parse_line (m_group sub));;
      let* r := run true (GitRevParse (m_group sub)) in
      submodule_revs subs' (dict_set (m_group sub) (strip (stdout r)) submodules)
  end.

Definition pin_line (sr : string * string) : string :=
  "# " +:+ fst sr +:+ " " +:+ snd sr.

Definition compile (platform python_version : string) (high no_deps : bool) : M string :=
  let* t := instant in
  shlex_split (compile_line t platform python_version high no_deps);;
  let* result := run false (UvPipCompile platform python_version high no_deps) in
  if negb (returncode result =? 0)%Z then raise (RuntimeError (stderr result))
  else
    let deps := stdout result in
    let* submodules := submodule_revs (finditer SUBMODULE_REF (DEV_text E)) [] in
    let* uv := get_uv_version in
    ret (join nl ([ "# uv " +:+ uv ]
                  ++ map pin_line submodules
                  ++ map strip (splitlines deps)
                  ++ map strip (splitlines (NODEPS_text E)))
         +:+ nl).

(** The body of the inner loop of [lock], over the Python versions. *)
Fixpoint lock_versions (platform : string) (versions : list string) (high : bool)
    (st : gmap string string * string) : M (gmap string string * string) :=
  match versions with
  | [] => ret st
  | python_version :: versions' =>
      let '(lock_contents, sys_compilation) := st in
      let key := get_compilation_key platform python_version high in
      let* compilation := compile platform python_version high false in
      let sys_compilation' :=
        if String.eqb sys_compilation EmptyString
           && String.eqb platform (SYS_PLATFORM E)
           && String.eqb python_version (SYS_PYTHON_VERSION E)
        then compilation else sys_compilation in
      lock_versions platform versions' high
        (<[key := compilation]> lock_contents, sys_compilation')
  end.

(** The outer loop of [lock], over the platforms. *)
Fixpoint lock_platforms (platforms : list string) (high : bool)
    (st : gmap string string * string) : M (gmap string string * string) :=
  match platforms with
  | [] => ret st
  | platform :: platforms' =>
      let* st' := lock_versions platform (PYTHON_VERSIONS E) high st in
      lock_platforms platforms' high st'
  end.

Definition lock (high : bool) (sys_compilation : string) : M string :=
  emit (EvLock high sys_compilation);;
  let* st := lock_platforms PLATFORMS high (∅, sys_compilation) in
  write_text (get_lockfile high) (dumps E (fst st) +:+ nl);;
  ret (snd st).

(** [zip(a, b, strict=strict)], consumed whole. *)
Fixpoint zip_ {A B} (strict : bool) (a : list A) (b : list B) : result (list (A * B)) :=
  match a, b with
  | x :: a', y :: b' =>
      match zip_ strict a' b' with
      | Ok l => Ok ((x, y) :: l)
      | Raise e => Raise e
      end
  | [], [] => Ok []
  | _, _ => if strict then Raise ValueError else Ok []
  end.

Definition strings_eqb (a b : list string) : bool :=
  bool_decide (a = b).

(** The loop of [check_compilation] over the direct dependencies: the
    lines of [old] found, or [None] when the loop leaves through the
    [return] at its end. *)
Fixpoint collect_old_directs (old : string) (directs : list Match)
    (old_directs : list string) : option (list string) :=
  match directs with
  | [] => Some old_directs
  | direct :: directs' =>
      match search (direct_pat (group direct "name")) old with
      | Some m => collect_old_directs old directs' (old_directs ++ [m_group m])
      | None => None
      end
  end.

(** [bool(v)] *)
Definition truthy (v : value) : bool :=
  match v with
  | VStr s => negb (String.eqb s EmptyString)
  | VOther b => b
  end.

Definition returning {A} (s : site) (m : M A) : M A := emit (EvReturn s);; m.

Definition check_compilation (high : bool) : M string :=
  let* old := get_compilation (SYS_PLATFORM E) (SYS_PYTHON_VERSION E) high in
  if negb (truthy old) then returning Old_compilation_missing (lock high EmptyString)
  else
    match old with
    | VOther _ => raise TypeError
    | VStr old =>
        match search UV_PAT old with
        | None => returning Unknown_uv_version (lock high EmptyString)
        | Some old_uv =>
            let* uv := get_uv_version in
            if negb (String.eqb (group old_uv "version") uv)
            then returning Older_uv_version (lock high EmptyString)
            else
              let* directs := compile (SYS_PLATFORM E) (SYS_PYTHON_VERSION E) high true in
              match zip_ false (finditer SUB_PAT old) (finditer SUB_PAT directs) with
              | Raise _ => returning Submodule_missing (lock high EmptyString)
              | Ok subs =>
                  if existsb (fun on => negb (strings_eqb (groups (fst on)) (groups (snd on)))) subs
                  then returning Submodule_sha_mismatch (lock high EmptyString)
                  else
                    match collect_old_directs old (finditer DEP_PAT directs) [] with
                    | None => returning Direct_dependency_missing (lock high EmptyString)
                    | Some old_directs =>
                        let* sys_compilation :=
                          compile (SYS_PLATFORM E) (SYS_PYTHON_VERSION E) high false in
                        if existsb (fun d => negb (contains d sys_compilation)) old_directs
                        then returning Direct_dependency_version_mismatch
                               (lock high sys_compilation)
                        else returning Old_compilation_compatible (ret old)
                    end
              end
        end
    end.

End Sync.

(** ** Observing a run *)

Definition new_events (w w' : World) : list event :=
  drop (length (trace w)) (trace w').

Definition sites (evs : list event) : list site :=
  omap (fun e => match e with EvReturn s => Some s | _ => None end) evs.

Definition locks (evs : list event) : list (bool * string) :=
  omap (fun e => match e with EvLock h s => Some (h, s) | _ => None end) evs.

Definition writes (evs : list event) : list (string * string) :=
  omap (fun e => match e with EvWrite p d => Some (p, d) | _ => None end) evs.

Definition runs (evs : list event) : list (command * CompletedProcess) :=
  omap (fun e => match e with EvRun c r => Some (c, r) | _ => None end) evs.

Definition is_run (e : event) : Prop :=
  match e with EvRun _ _ => True | _ => False end.

Definition run_event_ok (e : event) : Prop :=
  match e with EvRun _ res => returncode res = 0%Z | _ => True end.

(** How a result relates to the subprocesses run on the way: a value needs
    all of them to have exited with zero; an exception is the [IndexError]
    of the version probe or the [ValueError] of a command line that
    [shlex.split] cannot cut, with every subprocess so far having exited
    with zero, or it carries the error stream of the last subprocess, the
    only one that failed. *)
Definition failed_by {A} (r : result A) (evs : list event) : Prop :=
  match r with
  | Ok _ => Forall run_event_ok evs
  | Raise e =>
      ((e = IndexError \/ e = ValueError) /\ Forall run_event_ok evs) \/
      exists evs0 c res,
        evs = evs0 ++ [EvRun c res] /\ Forall run_event_ok evs0 /\
        returncode res <> 0%Z /\ error_text e = Some (stderr res)
  end.

(** The version the probe reads off the output of [bin/uv --version]. *)
Definition parse_version (out : string) : option string :=
  match Text.split " "%char (Text.strip out) with
  | _ :: version :: _ => Some version
  | _ => None
  end.

(** The keys [lock] writes: one for every supported platform and version. *)
Definition lock_keys (E : Env) (high : bool) : gset string :=
  list_to_set
    (flat_map (fun p => map (fun v => get_compilation_key p v high) (PYTHON_VERSIONS E))
       PLATFORMS).

Fixpoint all_chars (p : ascii -> bool) (s : string) : bool :=
  match s with
  | EmptyString => true
  | String c s' => p c && all_chars p s'
  end.

Fixpoint last_char (s : string) : option ascii :=
  match s with
  | EmptyString => None
  | String c EmptyString => Some c
  | String _ s' => last_char s'
  end.

(** The lines [compile] joins, in their order. *)
Definition fragment_lines (uv : string) (submodules : list (string * string))
    (deps nodeps : string) : list string :=
  [ "# uv " +:+ uv ]
  ++ map pin_line submodules
  ++ map Text.strip (Text.splitlines deps)
  ++ map Text.strip (Text.splitlines nodeps).

(** ** [json.dumps(indent=2, sort_keys=True, obj=d)] on a dictionary of
    strings, for the worked examples *)

Module Json.
Import Text.

Definition DQUOTE : ascii := Ascii.ascii_of_nat 34.
Definition BACKSLASH : ascii := Ascii.ascii_of_nat 92.

Definition hex_digit (n : nat) : ascii :=
  nth n (list_ascii_of_string "0123456789abcdef") "0"%char.

Definition escape (c : ascii) : string :=
  let n := code c in
  if n =? 34 then String BACKSLASH (String DQUOTE EmptyString)
  else if n =? 92 then String BACKSLASH (String BACKSLASH EmptyString)
  else if n =? 10 then String BACKSLASH "n"
  else if n =? 13 then String BACKSLASH "r"
  else if n =? 9 then String BACKSLASH "t"
  else if n =? 8 then String BACKSLASH "b"
  else if n =? 12 then String BACKSLASH "f"
  else if (32 <=? n) && (n <=? 126) then String c EmptyString
  else String BACKSLASH
         ("u00" +:+ String (hex_digit (n / 16)) (String (hex_digit (n mod 16)) EmptyString)).

Fixpoint escape_all (s : string) : string :=
  match s with
  | EmptyString => EmptyString
  | String c s' => escape c +:+ escape_all s'
  end.

Definition encode (s : string) : string :=
  String DQUOTE (escape_all s +:+ String DQUOTE EmptyString).

Fixpoint insert_sorted (kv : string * string) (l : list (string * string))
    : list (string * string) :=
  match l with
  | [] => [kv]
  | kv' :: l' =>
      if String.leb (fst kv) (fst kv') then kv :: l else kv' :: insert_sorted kv l'
  end.

Definition sort_items (l : list (string * string)) : list (string * string) :=
  foldr insert_sorted [] l.

Definition item (kv : string * string) : string :=
  "  " +:+ encode (fst kv) +:+ ": " +:+ encode (snd kv).

Definition dumps (d : gmap string string) : string :=
  match sort_items (map_to_list d) with
  | [] => "{}"
  | items => "{" +:+ nl +:+ join ("," +:+ nl) (map item items) +:+ nl +:+ "}"
  end.

(** The decoder, tabulated on the documents an example keeps. *)
Definition loads_table (docs : list (string * document)) (text : string)
    : option document :=
  snd <$> List.find (fun p => String.eqb (fst p) text) docs.

End Json.

(** ** Worked environments *)

Module Examples.
Import Text.

Definition ok (out : string) : CompletedProcess := mkProc 0 out EmptyString.

Definition versions : list string := ["3.9"; "3.10"; "3.11"; "3.12"].

(** A store file holding one fragment under one key. *)
Definition store_text (key fragment : string) : string :=
  Json.dumps {[ key := fragment ]} +:+ nl.

Definition store_doc (key fragment : string) : list (string * document) :=
  [(store_text key fragment, JObject {[ key := VStr fragment ]})].

Definition env (platform : string) (dev nodeps : string)
    (oracle : nat -> command -> CompletedProcess)
    (docs : list (string * document)) : Env :=
  mkEnv platform "3.11" versions dev nodeps oracle (Json.loads_table docs) Json.dumps
    (fun _ => "2024-03-20T09:26:53.589793Z") (fun path => path +:+ "/pyproject.toml").

Definition world (store : string) : World :=
  mkWorld 0 {[ "lock.json" := store ]} [].

Definition empty_world : World := mkWorld 0 ∅ [].

(** The unchanged environment: [uv] 1.2.0, [foo==1.0] both as the direct
    and as the full resolution, and a store that already says so. *)
Definition unchanged_fragment : string := unlines ["# uv 1.2.0"; "foo==1.0"].

Definition unchanged_oracle (t : nat) (c : command) : CompletedProcess :=
  match c with
  | UvVersion => ok "uv 1.2.0 (c4d5e6f 2024-03-20)"
  | UvPipCompile _ _ _ _ => ok (unlines ["foo==1.0"])
  | GitRevParse _ => ok (unlines ["0a1b2c3"])
  end.

Definition unchanged_env : Env :=
  env "linux" EmptyString EmptyString unchanged_oracle
    (store_doc "linux_3.11" unchanged_fragment).

Definition unchanged_world : World :=
  world (store_text "linux_3.11" unchanged_fragment).

(** The same store under a newer resolver. *)
Definition upgraded_oracle (t : nat) (c : command) : CompletedProcess :=
  match c with
  | UvVersion => ok "uv 1.3.0 (0f9e8d7 2024-04-02)"
  | _ => unchanged_oracle t c
  end.

Definition upgraded_env : Env :=
  env "linux" EmptyString EmptyString upgraded_oracle
    (store_doc "linux_3.11" unchanged_fragment).

(** A submodule whose commit moved from [aaa111] to [bbb222]. *)
Definition pinned_fragment : string :=
  unlines ["# uv 1.2.0"; "# submodules/typings aaa111"; "foo==1.0"].

Definition moved_oracle (t : nat) (c : command) : CompletedProcess :=
  match c with
  | GitRevParse _ => ok (unlines ["bbb222"])
  | _ => unchanged_oracle t c
  end.

Definition moved_env : Env :=
  env "linux" (unlines ["-e submodules/typings"]) EmptyString moved_oracle
    (store_doc "linux_3.11" pinned_fragment).

Definition moved_world : World :=
  world (store_text "linux_3.11" pinned_fragment).

(** A direct dependency [a.b] added since the store was written; the store
    has a line for the different package [axb] only. *)
Definition dotted_fragment : string := unlines ["# uv 1.2.0"; "axb==1.0"].

Definition dotted_oracle (t : nat) (c : command) : CompletedProcess :=
  match c with
  | UvPipCompile _ _ _ true => ok (unlines ["a.b==1.0"])
  | UvPipCompile _ _ _ false => ok (unlines ["a.b==1.0"; "axb==1.0"])
  | _ => unchanged_oracle t c
  end.

Definition dotted_env : Env :=
  env "linux" EmptyString EmptyString dotted_oracle
    (store_doc "linux_3.11" dotted_fragment).

Definition dotted_world : World :=
  world (store_text "linux_3.11" dotted_fragment).

(** A release of [foo] published while the check runs: the resolver says
    [foo==1.1] up to the fifth subprocess and [foo==1.2] from then on. *)
Definition release_oracle (t : nat) (c : command) : CompletedProcess :=
  match c with
  | UvPipCompile _ _ _ _ =>
      if t <? 5 then ok (unlines ["foo==1.1"]) else ok (unlines ["foo==1.2"])
  | _ => unchanged_oracle t c
  end.

Definition release_env : Env :=
  env "linux" EmptyString EmptyString release_oracle
    (store_doc "linux_3.11" unchanged_fragment).

Definition fragment_1_1 : string := unlines ["# uv 1.2.0"; "foo==1.1"].
Definition fragment_1_2 : string := unlines ["# uv 1.2.0"; "foo==1.2"].

(** The world [lock] is entered in once the check has run its five
    subprocesses. *)
Definition late_world : World :=
  mkWorld 5 {[ "lock.json" := store_text "linux_3.11" unchanged_fragment ]} [].

(** A probe that prints two spaces after the name, with a list of
    uncompiled dependencies that ends with a blank line. *)
Definition misprinted_oracle (t : nat) (c : command) : CompletedProcess :=
  match c with
  | UvVersion => ok "uv  1.2.0"
  | _ => unchanged_oracle t c
  end.

Definition misprinted_env : Env :=
  env "linux" EmptyString ("bar" +:+ nl +:+ nl) misprinted_oracle [].

(** A probe that breaks its line after the version, with nothing to
    resolve. *)
Definition wrapped_oracle (t : nat) (c : command) : CompletedProcess :=
  match c with
  | UvVersion => ok ("uv 1.2.0" +:+ nl +:+ " (c4d5e6f 2024-03-20)")
  | UvPipCompile _ _ _ _ => ok EmptyString
  | GitRevParse _ => unchanged_oracle t c
  end.

Definition wrapped_env : Env :=
  env "linux" EmptyString EmptyString wrapped_oracle [].

(** A reference to a submodule followed by a remark with an apostrophe. *)
Definition remarked_env : Env :=
  env "linux"
    (unlines ["-e submodules/typings  # Don't remove"])
    EmptyString unchanged_oracle [].

(** A store file cut short. *)
Definition corrupt_world : World := world "{".


(** A resolution that fails for one of the pairs. *)
Definition failing_oracle (t : nat) (c : command) : CompletedProcess :=
  match c with
  | UvPipCompile "windows" "3.12" _ _ => mkProc 1 EmptyString "No solution found"
  | _ => unchanged_oracle t c
  end.

Definition failing_env : Env :=
  env "linux" EmptyString EmptyString failing_oracle [].

End Examples.

(** A computation that only runs subprocesses: it leaves the files alone,
    appends one [EvRun] per tick of the clock, and its result is
    [failed_by] them. *)
Definition quiet {A} (m : M A) : Prop :=
  forall w, exists evs,
    trace (snd (m w)) = trace w ++ evs /\
    fs (snd (m w)) = fs w /\
    clock (snd (m w)) = clock w + length evs /\
    Forall is_run evs /\
    failed_by (fst (m w)) evs.

(** ** The last steps of [check_compilation], named

    [check_compilation] is a chain of guards; the three definitions below
    are its body from the submodule check on, from the search for the
    direct dependencies on, and from the comparison of their versions on
    ([check_compilation_stages] relates them to the function). *)

Section Stages.
Import Text Re Pat.
Context (E : Env).

Definition check_versions (high : bool) (old : string) (old_directs : list string)
    (sys_compilation : string) : M string :=
  if existsb (fun d => negb (contains d sys_compilation)) old_directs
  then returning Direct_dependency_version_mismatch (lock E high sys_compilation)
  else returning Old_compilation_compatible (ret old).

Definition check_directs (high : bool) (old directs : string) : M string :=
  match collect_old_directs old (finditer DEP_PAT directs) [] with
  | None => returning Direct_dependency_missing (lock E high EmptyString)
  | Some old_directs =>
      let* sys_compilation :=
        compile E (SYS_PLATFORM E) (SYS_PYTHON_VERSION E) high false in
      check_versions high old old_directs sys_compilation
  end.

Definition submodules_differ (old directs : string) : bool :=
  match zip_ false (finditer SUB_PAT old) (finditer SUB_PAT directs) with
  | Raise _ => false
  | Ok subs =>
      existsb (fun on => negb (strings_eqb (groups (fst on)) (groups (snd on)))) subs
  end.

Definition check_submodules (high : bool) (old directs : string) : M string :=
  match zip_ false (finditer SUB_PAT old) (finditer SUB_PAT directs) with
  | Raise _ => returning Submodule_missing (lock E high EmptyString)
  | Ok subs =>
      if existsb (fun on => negb (strings_eqb (groups (fst on)) (groups (snd on)))) subs
      then returning Submodule_sha_mismatch (lock E high EmptyString)
      else check_directs high old directs
  end.

(** The sites the steps after the submodule check can leave through. *)
Definition later_sites : list site :=
  [Direct_dependency_missing; Direct_dependency_version_mismatch;
   Old_compilation_compatible].

End Stages.

(** The world after one subprocess. *)
Definition tick (E : Env) (c : command) (w : World) : World :=
  mkWorld (S (clock w)) (fs w) (trace w ++ [EvRun c (proc E (clock w) c)]).

(** A pin whose revision came out of [strip]. *)
Definition stripped (sr : string * string) : Prop :=
  exists s, snd sr = Text.strip s.

(** The fragments for every supported pair, when they are all the same. *)
Definition uniform_store (E : Env) (high : bool) (fragment : string)
    : gmap string string :=
  list_to_map
    (flat_map
       (fun p => map (fun v => (get_compilation_key p v high, fragment))
                   (PYTHON_VERSIONS E))
       PLATFORMS).

Definition is_compile_of (platform python_version : string)
    (cr : command * CompletedProcess) : bool :=
  match fst cr with
  | UvPipCompile p v _ false => String.eqb p platform && String.eqb v python_version
  | _ => false
  end.

(** The names a pattern with a [name] group finds in a text. *)
Definition names_in (text : string) : list string :=
  map (fun m => group m "name") (Re.finditer Pat.DEP_PAT text).

(** A fragment that starts with the header line of version [uv]. *)
Definition stamped (uv : string) (fragment : string) : Prop :=
  exists rest, fragment = "# uv " +:+ uv +:+ Text.nl +:+ rest.

(** ** Further notions the properties are stated with *)

Section Notions.
Import Text Re Pat.

(** The key of the current platform and Python version. *)
Definition key_sys (E : Env) (high : bool) : string :=
  get_compilation_key (SYS_PLATFORM E) (SYS_PYTHON_VERSION E) high.

(** The mapping a call of [lock] builds in its two loops. *)
Definition locked (E : Env) (high : bool) (sys_compilation : string) (w : World)
    : gmap string string :=
  match
    fst (lock_platforms E PLATFORMS high (∅, sys_compilation)
           (mkWorld (clock w) (fs w) (trace w ++ [EvLock high sys_compilation])))
  with
  | Ok st => fst st
  | Raise _ => ∅
  end.

(** What [name_regex] accepts: the text has the characters of the name,
    ignoring case, a full stop of the name standing for any character but
    the line feed. *)
Fixpoint name_matches (name text : string) : bool :=
  match name, text with
  | EmptyString, EmptyString => true
  | String c name', String t text' =>
      (if chr_eqb c "."%char then not_newline t else chr_eqb (lower t) (lower c))
      && name_matches name' text'
  | _, _ => false
  end.

Fixpoint lowercase (s : string) : string :=
  match s with
  | EmptyString => EmptyString
  | String c s' => String (lower c) (lowercase s')
  end.

Definition not_full_stop (c : ascii) : bool := negb (chr_eqb c "."%char).

Definition not_blank (c : ascii) : bool := negb (chr_eqb c " "%char).

(** The command lines a call of [compile] runs when nothing fails, in
    their order: the resolver, one [git rev-parse] for every submodule
    reference of the development requirements, the version probe. *)
Definition compile_commands (E : Env) (platform python_version : string)
    (high no_deps : bool) : list command :=
  UvPipCompile platform python_version high no_deps
  :: map (fun sub => GitRevParse (m_group sub)) (finditer SUBMODULE_REF (DEV_text E))
  ++ [UvVersion].

(** The command lines of a whole [lock]. *)
Definition lock_commands (E : Env) (high : bool) : list command :=
  flat_map
    (fun p => flat_map (fun v => compile_commands E p v high false) (PYTHON_VERSIONS E))
    PLATFORMS.

(** A computation that runs the command lines [cmds], in their order,
    when it returns, and the first of them, up to the one that fails,
    when it raises. *)
Definition runs_within {A} (m : M A) (cmds : list command) : Prop :=
  forall w, exists evs,
    trace (snd (m w)) = trace w ++ evs /\
    match fst (m w) with
    | Ok _ => map fst (runs evs) = cmds
    | Raise _ => map fst (runs evs) `prefix_of` cmds
    end.

(** What [check_compilation] and its steps keep to: at most one [return]
    site, at most one call of [lock], for the same [high]; no file but the
    store file changes; a result comes with one write for every call of
    [lock], an exception with no write and the files as they were. *)
Definition confined (high : bool) {A} (m : M A) : Prop :=
  forall w, exists evs,
    trace (snd (m w)) = trace w ++ evs /\
    length (sites evs) <= 1 /\
    (locks evs = [] \/ exists s, locks evs = [(high, s)]) /\
    Forall (fun pd => fst pd = get_lockfile high) (writes evs) /\
    (forall path, path <> get_lockfile high -> fs (snd (m w)) !! path = fs w !! path) /\
    match fst (m w) with
    | Ok _ => length (writes evs) = length (locks evs)
    | Raise _ => writes evs = [] /\ fs (snd (m w)) = fs w
    end.

(** The pins [compile] takes from a run: one for every path the
    development requirements refer to, its revision the stripped output of
    a [git rev-parse] of that path in the run that exited with zero. *)
Definition pins_in (E : Env) (evs : list event) (submodules : list (string * string))
    : Prop :=
  List.NoDup (map fst submodules) /\
  (forall path, In path (map fst submodules) <->
                In path (map m_group (finditer SUBMODULE_REF (DEV_text E)))) /\
  forall path rev, In (path, rev) submodules ->
    exists res, In (GitRevParse path, res) (runs evs) /\
                returncode res = 0%Z /\ rev = strip (stdout res).

(** A fragment compiled for a platform and a version in a run: the lines
    [compile] joins, made of the version a probe of the run printed, of
    the pins of the run and of the output of a resolver of the run for
    that platform and version, all of them having exited with zero. *)
Definition compiled_in (E : Env) (evs : list event) (platform python_version : string)
    (high no_deps : bool) (fragment : string) : Prop :=
  exists res probe uv submodules,
    In (UvPipCompile platform python_version high no_deps, res) (runs evs) /\
    returncode res = 0%Z /\
    In (UvVersion, probe) (runs evs) /\
    returncode probe = 0%Z /\ parse_version (stdout probe) = Some uv /\
    pins_in E evs submodules /\
    fragment = unlines (fragment_lines uv submodules (stdout res) (NODEPS_text E)).

End Notions.

(** ** Further worked cases *)

Module Cases.
Import Text Re Examples.

(** The store a relock of the unchanged environment writes, and an
    environment that decodes it. *)
Definition relocked_store : gmap string string :=
  uniform_store unchanged_env false unchanged_fragment.

Definition relocked_env : Env :=
  env "linux" EmptyString EmptyString unchanged_oracle
    [(Json.dumps relocked_store +:+ nl, JObject (VStr <$> relocked_store))].

(** A store file that holds a list. *)
Definition listed_env : Env :=
  env "linux" EmptyString EmptyString unchanged_oracle [("[]", JOther)].

Definition listed_world : World := world "[]".

(** The line of [foo] in the unchanged fragment, as the patterns find it. *)
Definition foo_line : Match :=
  mkMatch 11 "foo==1.0" [("name", "foo"); ("ver", "1.0")].

Definition foo_dependency : Match := mkMatch 11 "foo==1.0" [("name", "foo")].

End Cases.

(** Proof steps for a pattern run on a text whose first characters are
    known: evaluate the closed guards, then unfold the matcher up to the
    next one. *)
Ltac eval_guards :=
  repeat match goal with
  | |- context [if ?b then _ else _] =>
      lazymatch b with true => fail | false => fail | _ => idtac end;
      let v := eval vm_compute in b in
      first [constr_eq v true | constr_eq v false];
      change b with v; cbv iota
  end.

Ltac re_steps :=
  repeat (progress (cbn [Re.exec Re.seq foldr Re.lit Re.at_bol Re.at_eol Re.search_from];
                    eval_guards)).

(** * Properties *)

Section Effects.
Import Text Re Pat.
Context (E : Env).

Lemma failed_by_app {A} (r : result A) (evs1 evs2 : list event) :
  Forall run_event_ok evs1 -> failed_by r evs2 -> failed_by r (evs1 ++ evs2).
Proof.
  intros H1 H2. destruct r as [a|e]; simpl in *.
  - apply Forall_app; auto.
  - destruct H2 as [[He H2]|(evs0 & c & res & -> & H0 & Hrc & Htxt)].
    + left. split; [done|]. apply Forall_app; auto.
    + right. exists (evs1 ++ evs0), c, res. rewrite app_assoc.
      repeat split; auto. apply Forall_app; auto.
Qed.

Lemma quiet_ret {A} (a : A) : quiet (ret a).
Proof.
  intros w. exists []. simpl. rewrite app_nil_r.
  split_and!; [done|done|lia|constructor|].
  constructor.
Qed.

Lemma quiet_raise_IndexError {A} : quiet (@raise A IndexError).
Proof.
  intros w. exists []. simpl. rewrite app_nil_r.
  split_and!; [done|done|lia|constructor|].
  left. split; [by left|constructor].
Qed.

Lemma quiet_instant : quiet instant.
Proof.
  intros w. exists []. simpl. rewrite app_nil_r.
  split_and!; [done|done|lia|constructor|constructor].
Qed.

Lemma quiet_shlex_split (line : string) : quiet (shlex_split line).
Proof.
  unfold shlex_split. destruct (Shlex.splits line); [apply quiet_ret|].
  intros w. exists []. simpl. rewrite app_nil_r.
  split_and!; [done|done|lia|constructor|].
  left. split; [by right|constructor].
Qed.

Lemma quiet_bind {A B} (m : M A) (k : A -> M B) :
  quiet m -> (forall a, quiet (k a)) -> quiet (bind m k).
Proof.
  intros Hm Hk w. destruct (Hm w) as (evs1 & Ht1 & Hf1 & Hc1 & Hr1 & Hb1).
  unfold bind. destruct (m w) as [[a|e] w1]; simpl in *.
  - destruct (Hk a w1) as (evs2 & Ht2 & Hf2 & Hc2 & Hr2 & Hb2).
    exists (evs1 ++ evs2). rewrite Ht2, Ht1, Hf2, Hf1, Hc2, Hc1, length_app, app_assoc.
    split_and!; [done|done|lia|by apply Forall_app|by apply failed_by_app].
  - exists evs1. by split_and!.
Qed.

Lemma quiet_run_checked (c : command) : quiet (run E true c).
Proof.
  intros w. exists [EvRun c (proc E (clock w) c)]. unfold run.
  destruct (returncode (proc E (clock w) c) =? 0)%Z eqn:Hrc; simpl.
  - split_and!; [done|done|simpl; lia|by repeat constructor|].
    repeat constructor. by apply Z.eqb_eq.
  - split_and!; [done|done|simpl; lia|by repeat constructor|].
    right. exists [], c, (proc E (clock w) c).
    split_and!; [done|constructor|by apply Z.eqb_neq|done].
Qed.

Lemma quiet_run_or_raise {A} (c : command) (k : CompletedProcess -> M A) :
  (forall res, quiet (k res)) ->
  quiet (bind (run E false c) (fun result =>
           if negb (returncode result =? 0)%Z then raise (RuntimeError (stderr result))
           else k result)).
Proof.
  intros Hk w. unfold bind, run. simpl.
  set (res := proc E (clock w) c).
  set (w1 := mkWorld _ _ _).
  destruct (returncode res =? 0)%Z eqn:Hrc; simpl.
  - destruct (Hk res w1) as (evs2 & Ht2 & Hf2 & Hc2 & Hr2 & Hb2).
    exists (EvRun c res :: evs2). rewrite Ht2, Hf2, Hc2. subst w1; simpl.
    rewrite <- app_assoc.
    split_and!; [done|done|simpl; lia|by constructor|].
    apply (failed_by_app _ [EvRun c res]); [|done].
    repeat constructor. by apply Z.eqb_eq.
  - exists [EvRun c res].
    split_and!; [done|done|simpl; lia|by repeat constructor|].
    right. exists [], c, res.
    split_and!; [done|constructor|by apply Z.eqb_neq|done].
Qed.

Lemma quiet_get_uv_version : quiet (get_uv_version E).
Proof.
  unfold get_uv_version. apply quiet_run_or_raise. intros res.
  destruct (split _ _) as [|a [|v l]];
    auto using @quiet_ret, @quiet_raise_IndexError.
Qed.

Lemma quiet_submodule_revs subs submodules : quiet (submodule_revs E subs submodules).
Proof.
  revert submodules. induction subs as [|sub subs IH]; intros submodules; simpl.
  - apply quiet_ret.
  - apply quiet_bind; [apply quiet_shlex_split|]. intros _.
    apply quiet_bind; [apply quiet_run_checked|]. intros r. apply IH.
Qed.

Lemma quiet_compile platform python_version high no_deps :
  quiet (compile E platform python_version high no_deps).
Proof.
  unfold compile. apply quiet_bind; [apply quiet_instant|]. intros t.
  apply quiet_bind; [apply quiet_shlex_split|]. intros _.
  apply quiet_run_or_raise. intros res.
  apply quiet_bind; [apply quiet_submodule_revs|]. intros submodules.
  apply quiet_bind; [apply quiet_get_uv_version|]. intros uv.
  apply quiet_ret.
Qed.

Lemma quiet_lock_versions platform versions high st :
  quiet (lock_versions E platform versions high st).
Proof.
  revert st. induction versions as [|v versions IH]; intros [d s]; simpl.
  - apply quiet_ret.
  - apply quiet_bind; [apply quiet_compile|]. intros c. apply IH.
Qed.

Lemma quiet_lock_platforms platforms high st :
  quiet (lock_platforms E platforms high st).
Proof.
  revert st. induction platforms as [|p platforms IH]; intros st; simpl.
  - apply quiet_ret.
  - apply quiet_bind; [apply quiet_lock_versions|]. intros st'. apply IH.
Qed.

End Effects.


Section Traces.
Import Text Re Pat.
Context (E : Env).

Lemma check_compilation_stages (high : bool) :
  check_compilation E high =
  (let* old := get_compilation E (SYS_PLATFORM E) (SYS_PYTHON_VERSION E) high in
   if negb (truthy old) then returning Old_compilation_missing (lock E high EmptyString)
   else
     match old with
     | VOther _ => raise TypeError
     | VStr old =>
         match search UV_PAT old with
         | None => returning Unknown_uv_version (lock E high EmptyString)
         | Some old_uv =>
             let* uv := get_uv_version E in
             if negb (String.eqb (group old_uv "version") uv)
             then returning Older_uv_version (lock E high EmptyString)
             else
               let* directs :=
                 compile E (SYS_PLATFORM E) (SYS_PYTHON_VERSION E) high true in
               check_submodules E high old directs
         end
     end).
Proof. reflexivity. Qed.

Lemma new_events_app (w w' : World) (evs : list event) :
  trace w' = trace w ++ evs -> new_events w w' = evs.
Proof. intros H. unfold new_events. rewrite H. apply drop_app_length. Qed.

Lemma sites_app (a b : list event) : sites (a ++ b) = sites a ++ sites b.
Proof. apply omap_app. Qed.
Lemma locks_app (a b : list event) : locks (a ++ b) = locks a ++ locks b.
Proof. apply omap_app. Qed.
Lemma writes_app (a b : list event) : writes (a ++ b) = writes a ++ writes b.
Proof. apply omap_app. Qed.
Lemma runs_app (a b : list event) : runs (a ++ b) = runs a ++ runs b.
Proof. apply omap_app. Qed.

Lemma only_runs (evs : list event) :
  Forall is_run evs -> sites evs = [] /\ locks evs = [] /\ writes evs = [].
Proof.
  induction 1 as [|e evs He _ IH]; [done|].
  destruct e; try done.
Qed.

Lemma runs_all_ok (evs : list event) (c : command) (res : CompletedProcess) :
  Forall run_event_ok evs -> In (c, res) (runs evs) -> returncode res = 0%Z.
Proof.
  induction 1 as [|e evs He _ IH]; [done|].
  destruct e; simpl; try done. intros [[= <- <-]|?]; auto.
Qed.

Lemma failed_by_run {A} (r : result A) (evs : list event) c res :
  failed_by r evs -> In (c, res) (runs evs) -> returncode res <> 0%Z ->
  exists e, r = Raise e /\ error_text e = Some (stderr res).
Proof.
  intros Hf Hin Hrc. destruct r as [a|e]; simpl in Hf.
  - destruct Hrc. eapply runs_all_ok; eauto.
  - destruct Hf as [[_ Hf]|(evs0 & c' & res' & -> & H0 & Hrc' & Htxt)].
    + destruct Hrc. eapply runs_all_ok; eauto.
    + rewrite runs_app in Hin. apply in_app_or in Hin as [Hin|Hin].
      * destruct Hrc. eapply runs_all_ok; eauto.
      * simpl in Hin. destruct Hin as [[= <- <-]|[]]. eauto.
Qed.

End Traces.


Section LockFacts.
Import Text Re Pat.
Context (E : Env).

Lemma lock_versions_ok (P : string -> Prop) platform versions high
    (d : gmap string string) s w (d' : gmap string string) s' w' :
  (forall p v w1 frag w2, compile E p v high false w1 = (Ok frag, w2) -> P frag) ->
  lock_versions E platform versions high (d, s) w = (Ok (d', s'), w') ->
  map_Forall (fun _ => P) d ->
  map_Forall (fun _ => P) d' /\
  dom d' = dom d ∪ list_to_set (map (fun v => get_compilation_key platform v high) versions) /\
  (s' = s \/
   (s = EmptyString /\ platform = SYS_PLATFORM E /\
    In (SYS_PYTHON_VERSION E) versions /\ P s')).
Proof.
  intros HP. revert d s w. induction versions as [|v versions IH]; intros d s w H Hd.
  - simpl in H. unfold ret in H. simplify_eq.
    split_and!; [done|simpl; by rewrite union_empty_r_L|by left].
  - simpl in H. unfold bind in H.
    destruct (compile E platform v high false w) as [[c|e] w1] eqn:Hc; [|done].
    apply IH in H as (Hd' & Hdom & Hs).
    2:{ apply map_Forall_insert_2; eauto. }
    split_and!; [done| |].
    { rewrite Hdom, dom_insert_L. cbn [map list_to_set foldr].
      by rewrite (comm_L (∪) {[_]} (dom d)), <- (assoc_L (∪)). }
    destruct (String.eqb s EmptyString) eqn:Hs0; simpl in Hs.
    2:{ destruct Hs as [->|(-> & _)]; [by left|done]. }
    apply String.eqb_eq in Hs0 as ->.
    destruct (String.eqb platform (SYS_PLATFORM E)) eqn:Hp; simpl in Hs.
    2:{ destruct Hs as [->|(_ & -> & _)]; [by left|].
        by rewrite String.eqb_refl in Hp. }
    apply String.eqb_eq in Hp as ->.
    destruct (String.eqb v (SYS_PYTHON_VERSION E)) eqn:Hv; simpl in Hs.
    + apply String.eqb_eq in Hv as ->. right.
      destruct Hs as [->|(_ & _ & _ & ?)]; split_and!; eauto using in_eq.
    + destruct Hs as [->|(_ & _ & ? & ?)]; [by left|right].
      split_and!; eauto using in_cons.
Qed.

Lemma lock_platforms_ok (P : string -> Prop) platforms high
    (d : gmap string string) s w (d' : gmap string string) s' w' :
  (forall p v w1 frag w2, compile E p v high false w1 = (Ok frag, w2) -> P frag) ->
  lock_platforms E platforms high (d, s) w = (Ok (d', s'), w') ->
  map_Forall (fun _ => P) d ->
  map_Forall (fun _ => P) d' /\
  dom d' = dom d ∪
    list_to_set
      (flat_map (fun p => map (fun v => get_compilation_key p v high) (PYTHON_VERSIONS E))
         platforms) /\
  (s' = s \/
   (s = EmptyString /\ In (SYS_PLATFORM E) platforms /\
    In (SYS_PYTHON_VERSION E) (PYTHON_VERSIONS E) /\ P s')).
Proof.
  intros HP. revert d s w. induction platforms as [|p platforms IH]; intros d s w H Hd.
  - simpl in H. unfold ret in H. simplify_eq.
    split_and!; [done|simpl; by rewrite union_empty_r_L|by left].
  - simpl in H. unfold bind in H.
    destruct (lock_versions E p (PYTHON_VERSIONS E) high (d, s) w)
      as [[[d1 s1]|e] w1] eqn:Hv; [|done].
    eapply lock_versions_ok in Hv as (Hd1 & Hdom1 & Hs1); eauto.
    apply IH in H as (Hd' & Hdom & Hs); [|done].
    split_and!; [done| |].
    + rewrite Hdom, Hdom1. cbn [flat_map].
      by rewrite list_to_set_app_L, (assoc_L (∪)).
    + destruct Hs as [->|(-> & ? & ? & ?)].
      * destruct Hs1 as [->|(-> & -> & ? & ?)]; [by left|right].
        split_and!; eauto using in_eq.
      * right. destruct Hs1 as [Hs1|(Hs1 & _)]; split_and!; eauto using in_cons.
Qed.

Lemma lock_unfold high s w :
  lock E high s w =
  match lock_platforms E PLATFORMS high (∅, s)
          (mkWorld (clock w) (fs w) (trace w ++ [EvLock high s])) with
  | (Ok st, w2) =>
      (Ok (snd st),
       mkWorld (clock w2)
         (<[get_lockfile high := dumps E (fst st) +:+ nl]> (fs w2))
         (trace w2 ++ [EvWrite (get_lockfile high) (dumps E (fst st) +:+ nl)]))
  | (Raise e, w2) => (Raise e, w2)
  end.
Proof. reflexivity. Qed.

(** What a completed [lock] has done. *)
Lemma lock_ok (P : string -> Prop) high s w r w' :
  (forall p v w1 frag w2, compile E p v high false w1 = (Ok frag, w2) -> P frag) ->
  lock E high s w = (Ok r, w') ->
  exists (lock_contents : gmap string string) evs,
    map_Forall (fun _ => P) lock_contents /\
    dom lock_contents = lock_keys E high /\
    fs w' = <[get_lockfile high := dumps E lock_contents +:+ nl]> (fs w) /\
    trace w' = trace w ++ [EvLock high s] ++ evs
               ++ [EvWrite (get_lockfile high) (dumps E lock_contents +:+ nl)] /\
    Forall is_run evs /\ Forall run_event_ok evs /\
    (r = s \/
     (s = EmptyString /\ In (SYS_PLATFORM E) PLATFORMS /\
      In (SYS_PYTHON_VERSION E) (PYTHON_VERSIONS E) /\ P r)).
Proof.
  intros HP H. rewrite lock_unfold in H.
  set (w1 := mkWorld _ _ _) in H.
  destruct (quiet_lock_platforms E PLATFORMS high (∅, s) w1)
    as (evs & Ht & Hf & _ & Hr & Hb).
  destruct (lock_platforms E PLATFORMS high (∅, s) w1) as [[[d s']|e] w2] eqn:Hl; [|done].
  simplify_eq. simpl in Ht, Hf, Hb.
  eapply lock_platforms_ok in Hl as (Hd & Hdom & Hs); eauto; [|apply map_Forall_empty].
  exists d, evs. rewrite Hf, Ht. simpl. rewrite <- !app_assoc. simpl.
  split_and!; try done.
  rewrite Hdom, dom_empty_L. unfold lock_keys. by rewrite (left_id_L ∅ (∪)).
Qed.

(** What an interrupted [lock] has left. *)
Lemma lock_raise high s w e w' :
  lock E high s w = (Raise e, w') ->
  exists evs,
    fs w' = fs w /\
    trace w' = trace w ++ [EvLock high s] ++ evs /\
    Forall is_run evs /\ failed_by (@Raise string e) evs.
Proof.
  intros H. rewrite lock_unfold in H.
  set (w1 := mkWorld _ _ _) in H.
  destruct (quiet_lock_platforms E PLATFORMS high (∅, s) w1)
    as (evs & Ht & Hf & _ & Hr & Hb).
  destruct (lock_platforms E PLATFORMS high (∅, s) w1) as [[[d s']|e'] w2] eqn:Hl; [done|].
  simplify_eq. simpl in Ht, Hf, Hb.
  exists evs. rewrite Hf, Ht. simpl. rewrite <- !app_assoc. by split_and!.
Qed.

End LockFacts.


Section TextFacts.
Import Text.

Lemma append_cons (c : ascii) (a b : string) : String c a +:+ b = String c (a +:+ b).
Proof. reflexivity. Qed.

Lemma append_nil_l (s : string) : EmptyString +:+ s = s.
Proof. reflexivity. Qed.

Lemma append_nil_r (s : string) : s +:+ EmptyString = s.
Proof. induction s as [|c s IH]; [done|]. by rewrite append_cons, IH. Qed.

Lemma append_assoc (a b c : string) : (a +:+ b) +:+ c = a +:+ (b +:+ c).
Proof. induction a as [|x a IH]; [done|]. by rewrite !append_cons, IH. Qed.

Lemma unlines_cons (x : string) (l : list string) :
  unlines (x :: l) = x +:+ nl +:+ unlines l.
Proof. reflexivity. Qed.

Lemma join_unlines (x : string) (l : list string) :
  join nl (x :: l) +:+ nl = unlines (x :: l).
Proof.
  revert x. induction l as [|y l IH]; intros x.
  - reflexivity.
  - rewrite unlines_cons, <- IH. cbn [join]. by rewrite !append_assoc.
Qed.

Lemma last_char_append (a b : string) :
  b <> EmptyString -> last_char (a +:+ b) = last_char b.
Proof.
  intros Hb. induction a as [|c a IH]; [done|].
  rewrite append_cons. cbn [last_char]. rewrite IH.
  destruct (a +:+ b) eqn:Hab; [|done].
  destruct a; [done|discriminate].
Qed.

Lemma last_char_rstrip (s : string) (c : ascii) :
  last_char (rstrip s) = Some c -> isspace c = false.
Proof.
  induction s as [|x s IH]; [done|]. cbn [rstrip].
  destruct (rstrip s) as [|y r] eqn:Hr.
  - destruct (isspace x) eqn:Hx; [done|]. intros [= <-]. done.
  - intros H. apply IH. exact H.
Qed.

Lemma last_char_strip (s : string) (c : ascii) :
  last_char (strip s) = Some c -> isspace c = false.
Proof. apply last_char_rstrip. Qed.

Lemma last_char_all (p : ascii -> bool) (s : string) (c : ascii) :
  all_chars p s = true -> last_char s = Some c -> p c = true.
Proof.
  induction s as [|x s IH]; [done|]. cbn [all_chars last_char].
  intros [Hx Hs]%andb_prop. destruct s; [by intros [= <-]|auto].
Qed.

End TextFacts.


Section ReFacts.
Import Text Re Pat.

Lemma rev_app_rev_app (v a b : string) :
  String.rev_app (String.rev_app v a) b = String.rev_app a (v +:+ b).
Proof.
  revert a b. induction v as [|c v IH]; intros a b; [done|].
  cbn [String.rev_app]. by rewrite IH.
Qed.

Lemma rev_app_append (v a b : string) :
  String.rev_app v (a +:+ b) = String.rev_app v a +:+ b.
Proof.
  revert a. induction v as [|c v IH]; intros a; [done|].
  cbn [String.rev_app]. by rewrite <- IH.
Qed.

Lemma rev_app_length (v a : string) :
  String.length (String.rev_app v a) = String.length v + String.length a.
Proof.
  revert a. induction v as [|c v IH]; intros a; [done|].
  cbn [String.rev_app]. rewrite IH. cbn. lia.
Qed.

Lemma substring_prefix (a b : string) :
  String.substring 0 (String.length a) (a +:+ b) = a.
Proof.
  induction a as [|c a IH]; [by destruct b|].
  rewrite append_cons. cbn. by rewrite IH.
Qed.

Lemma taken_rev_app (v bef : string) : taken bef (String.rev_app v bef) = v.
Proof.
  unfold taken. rewrite rev_app_length, Nat.add_sub.
  assert (String.rev_app v bef = String.rev_app v EmptyString +:+ bef) as ->
    by (by rewrite <- rev_app_append).
  assert (String.length v = String.length (String.rev_app v EmptyString)) as ->
    by (rewrite rev_app_length; cbn; lia).
  rewrite substring_prefix. unfold String.rev.
  by rewrite rev_app_rev_app, append_nil_r.
Qed.

Lemma taken_from_start (b : string) : taken EmptyString b = String.rev b.
Proof.
  unfold taken. cbn [String.length]. rewrite Nat.sub_0_r.
  rewrite <- (append_nil_r b) at 2. by rewrite substring_prefix.
Qed.

Lemma rep_greedy_run {R} (p : ascii -> bool) (min n : nat) (v : string) (c : ascii)
    (rest bef : string) (k : string -> string -> option R) (x : R) :
  all_chars p v = true -> p c = false -> min <= n + String.length v ->
  k (String.rev_app v bef) (String c rest) = Some x ->
  rep_greedy p min n bef (v +:+ String c rest) k = Some x.
Proof.
  revert n bef. induction v as [|a v IH]; intros n bef Hv Hc Hmin Hk.
  - rewrite append_nil_l. cbn [rep_greedy String.rev_app String.length] in *.
    rewrite Hc. destruct (Nat.leb_spec min n); [done|lia].
  - cbn [all_chars] in Hv. apply andb_prop in Hv as [Ha Hv].
    rewrite append_cons. cbn [rep_greedy]. rewrite Ha.
    rewrite (IH (S n) (String a bef)); auto. cbn in Hmin. lia.
Qed.

Lemma search_from_header (uv rest : string) :
  uv <> EmptyString -> all_chars not_newline uv = true ->
  search_from UV_PAT EmptyString ("# uv " +:+ uv +:+ nl +:+ rest)
  = Some (mkMatch 0 ("# uv " +:+ uv) [("version", uv)],
          (String.rev_app uv " vu #", String LF rest)).
Proof.
  intros Hne Hnl.
  change ("# uv " +:+ uv +:+ nl +:+ rest)
    with (String "#" (String " " (String "u" (String "v" (String " "
            (uv +:+ String LF rest)))))).
  cbn [search_from]. unfold match_at, UV_PAT. re_steps.
  erewrite rep_greedy_run; [reflexivity|done|done| |].
  - destruct uv; [done|]. cbn. lia.
  - re_steps. rewrite taken_rev_app, taken_from_start.
    unfold String.rev. rewrite rev_app_rev_app, append_nil_r. reflexivity.
Qed.

Lemma search_header (uv rest : string) :
  uv <> EmptyString -> all_chars not_newline uv = true ->
  search UV_PAT ("# uv " +:+ uv +:+ nl +:+ rest)
  = Some (mkMatch 0 ("# uv " +:+ uv) [("version", uv)]).
Proof.
  intros Hne Hnl. unfold search. by rewrite search_from_header.
Qed.

End ReFacts.


Section CompileFacts.
Import Text Re Pat.
Context (E : Env).

Lemma get_uv_version_Ok w uv w' :
  get_uv_version E w = (Ok uv, w') ->
  returncode (proc E (clock w) UvVersion) = 0%Z /\
  parse_version (stdout (proc E (clock w) UvVersion)) = Some uv /\
  w' = tick E UvVersion w.
Proof.
  unfold get_uv_version, bind, run, parse_version. simpl.
  destruct (returncode _ =? 0)%Z eqn:Hrc; simpl; [|done].
  apply Z.eqb_eq in Hrc.
  destruct (split _ _) as [|a [|v l]]; simpl; try done.
  intros [= <- <-]. done.
Qed.

Lemma get_uv_version_succeeds w uv :
  returncode (proc E (clock w) UvVersion) = 0%Z ->
  parse_version (stdout (proc E (clock w) UvVersion)) = Some uv ->
  get_uv_version E w = (Ok uv, tick E UvVersion w).
Proof.
  unfold get_uv_version, bind, run, parse_version. simpl.
  intros -> H. simpl.
  destruct (split _ _) as [|a [|v l]]; simpl in *; try done.
  by injection H as ->.
Qed.

Lemma dict_set_stripped k s d :
  Forall stripped d -> Forall stripped (dict_set k (strip s) d).
Proof.
  induction 1 as [|[k' v'] d Hx Hd IH]; simpl.
  - repeat constructor. by exists s.
  - destruct (String.eqb k' k); constructor; auto. by exists s.
Qed.

Lemma submodule_revs_cons sub subs submodules w :
  submodule_revs E (sub :: subs) submodules w =
  (let c := GitRevParse (m_group sub) in
   if negb (Shlex.splits (rev_parse_line (m_group sub))) then (Raise ValueError, w)
   else if negb (returncode (proc E (clock w) c) =? 0)%Z
   then (Raise (CalledProcessError c (proc E (clock w) c)), tick E c w)
   else submodule_revs E subs
          (dict_set (m_group sub) (strip (stdout (proc E (clock w) c))) submodules)
          (tick E c w)).
Proof.
  cbn [submodule_revs]. unfold bind at 1, shlex_split. cbv zeta.
  destruct (Shlex.splits _); [|done]. cbn [negb ret].
  unfold bind, run, tick. cbn [andb]. by destruct (negb _).
Qed.

Lemma submodule_revs_stripped subs submodules w submodules' w' :
  submodule_revs E subs submodules w = (Ok submodules', w') ->
  Forall stripped submodules -> Forall stripped submodules'.
Proof.
  revert submodules w. induction subs as [|sub subs IH]; intros submodules w H Hs.
  - simpl in H. unfold ret in H. by simplify_eq.
  - rewrite submodule_revs_cons in H. cbv zeta in H.
    destruct (negb (Shlex.splits _)); [done|].
    destruct (negb (_ =? _)%Z); [done|].
    eapply IH; eauto using dict_set_stripped.
Qed.

Lemma compile_unfold p v h nd w :
  compile E p v h nd w =
  (let c := UvPipCompile p v h nd in
  if negb (Shlex.splits (compile_line E (clock w) p v h nd)) then (Raise ValueError, w)
  else if negb (returncode (proc E (clock w) c) =? 0)%Z
  then (Raise (RuntimeError (stderr (proc E (clock w) c))), tick E c w)
  else
    match submodule_revs E (finditer SUBMODULE_REF (DEV_text E)) [] (tick E c w) with
    | (Ok submodules, w1) =>
        match get_uv_version E w1 with
        | (Ok uv, w2) =>
            (Ok (unlines (fragment_lines uv submodules
                            (stdout (proc E (clock w) c)) (NODEPS_text E))), w2)
        | (Raise e, w2) => (Raise e, w2)
        end
    | (Raise e, w1) => (Raise e, w1)
    end).
Proof.
  unfold compile, bind at 1, instant. unfold bind at 1, shlex_split. cbv zeta.
  destruct (Shlex.splits _); [|done]. cbn [negb ret].
  unfold bind at 1, run, tick. cbn [andb].
  destruct (negb _); [done|].
  unfold bind at 1. destruct (submodule_revs E _ _ _) as [[submodules|e] w1]; [|done].
  unfold bind. destruct (get_uv_version E w1) as [[uv|e] w2]; [|done].
  unfold ret. f_equal. f_equal. exact (join_unlines ("# uv " +:+ uv) _).
Qed.

Lemma compile_Ok p v h nd w frag w' :
  compile E p v h nd w = (Ok frag, w') ->
  exists submodules w1 uv,
    Forall stripped submodules /\
    get_uv_version E w1 = (Ok uv, w') /\
    frag = unlines (fragment_lines uv submodules
                      (stdout (proc E (clock w) (UvPipCompile p v h nd)))
                      (NODEPS_text E)).
Proof.
  rewrite compile_unfold. cbv zeta.
  destruct (negb (Shlex.splits _)); [done|].
  destruct (negb (_ =? _)%Z); [done|].
  destruct (submodule_revs E _ _ _) as [[submodules|e] w1] eqn:Hs; [|done].
  destruct (get_uv_version E w1) as [[uv|e] w2] eqn:Hu; [|done].
  intros [= <- <-].
  exists submodules, w1, uv. split_and!; [|done|done].
  eapply submodule_revs_stripped; eauto.
Qed.

(** The steps of a call of [compile] that returns. *)
Lemma compile_Ok_steps p v h nd w frag w' :
  compile E p v h nd w = (Ok frag, w') ->
  let c := UvPipCompile p v h nd in
  exists submodules w1 uv,
    Shlex.splits (compile_line E (clock w) p v h nd) = true /\
    returncode (proc E (clock w) c) = 0%Z /\
    submodule_revs E (finditer SUBMODULE_REF (DEV_text E)) [] (tick E c w)
    = (Ok submodules, w1) /\
    get_uv_version E w1 = (Ok uv, w') /\
    frag = unlines (fragment_lines uv submodules (stdout (proc E (clock w) c))
                      (NODEPS_text E)).
Proof.
  rewrite compile_unfold. cbv zeta.
  destruct (Shlex.splits _); [|done]. cbn [negb].
  destruct (returncode _ =? 0)%Z eqn:Hrc; [|done]. cbn [negb].
  destruct (submodule_revs E _ _ _) as [[submodules|e] w1] eqn:Hs; [|done].
  destruct (get_uv_version E w1) as [[uv|e] w2] eqn:Hu; [|done].
  intros [= <- <-].
  exists submodules, w1, uv. split_and!; [done|by apply Z.eqb_eq|done|done|done].
Qed.

(** Under a probe that reads the same version at every instant, every
    fragment starts with the header line of that version. *)
Lemma compile_header uv p v h nd w frag w' :
  (forall t, parse_version (stdout (proc E t UvVersion)) = Some uv) ->
  compile E p v h nd w = (Ok frag, w') ->
  exists rest, frag = "# uv " +:+ uv +:+ nl +:+ rest.
Proof.
  intros Hprobe (submodules & w1 & uv' & _ & Hu & ->)%compile_Ok.
  apply get_uv_version_Ok in Hu as (_ & Hu & _).
  rewrite Hprobe in Hu. injection Hu as <-.
  eexists. unfold fragment_lines. cbn [app].
  rewrite unlines_cons, append_assoc. reflexivity.
Qed.

Section Succeeding.
Hypothesis all_succeed : forall t c, returncode (proc E t c) = 0%Z.
Hypothesis probe_parses : forall t, is_Some (parse_version (stdout (proc E t UvVersion))).



Section Splitting.
Variable high : bool.
Hypothesis references_split :
  forall sub, In sub (finditer SUBMODULE_REF (DEV_text E)) ->
    Shlex.splits (rev_parse_line (m_group sub)) = true.




End Splitting.

End Succeeding.

End CompileFacts.

Section CheckFacts.
Import Text Re Pat.
Context (E : Env).

Lemma zip_nonstrict {A B} (a : list A) (b : list B) : zip_ false a b = Ok (zip a b).
Proof.
  revert b. induction a as [|x a IH]; intros [|y b]; simpl; try done.
  by rewrite IH.
Qed.

Lemma lock_trace high s w :
  exists evs,
    trace (snd (lock E high s w)) = trace w ++ EvLock high s :: evs /\
    sites evs = [] /\ locks evs = [].
Proof.
  destruct (lock E high s w) as [[r|e] w'] eqn:H; simpl.
  - apply (lock_ok E (fun _ => True)) in H
      as (d & evs & _ & _ & _ & Ht & Hr & _); [|done].
    apply only_runs in Hr as (Hs & Hl & _).
    exists (evs ++ [EvWrite (get_lockfile high) (dumps E d +:+ nl)]).
    rewrite Ht, sites_app, locks_app, Hs, Hl. done.
  - apply lock_raise in H as (evs & _ & Ht & Hr & _).
    apply only_runs in Hr as (Hs & Hl & _). by exists evs.
Qed.

Lemma returning_lock_trace s high sc w :
  exists evs,
    trace (snd (returning s (lock E high sc) w))
      = trace w ++ EvReturn s :: EvLock high sc :: evs /\
    sites evs = [] /\ locks evs = [].
Proof.
  unfold returning, bind, emit. simpl.
  set (w1 := mkWorld _ _ _).
  destruct (lock_trace high sc w1) as (evs & Ht & Hs & Hl).
  exists evs. rewrite Ht. simpl. by rewrite <- app_assoc.
Qed.

Lemma quiet_trace {A} (m : M A) (w : World) :
  quiet m ->
  exists evs, trace (snd (m w)) = trace w ++ evs /\ fs (snd (m w)) = fs w /\
              sites evs = [] /\ locks evs = [] /\ writes evs = [].
Proof.
  intros Hq. destruct (Hq w) as (evs & Ht & Hf & _ & Hr & _).
  apply only_runs in Hr as (? & ? & ?). by exists evs.
Qed.

Lemma check_versions_trace high old old_directs sys_compilation w :
  exists evs,
    trace (snd (check_versions E high old old_directs sys_compilation w))
      = trace w ++ evs /\
    if existsb (fun d => negb (contains d sys_compilation)) old_directs
    then sites evs = [Direct_dependency_version_mismatch] /\
         locks evs = [(high, sys_compilation)]
    else sites evs = [Old_compilation_compatible] /\ locks evs = [] /\
         evs = [EvReturn Old_compilation_compatible].
Proof.
  unfold check_versions. destruct (existsb _ _).
  - destruct (returning_lock_trace Direct_dependency_version_mismatch high
                sys_compilation w) as (evs & Ht & Hs & Hl).
    eexists. split; [exact Ht|]. simpl. by rewrite Hs, Hl.
  - by exists [EvReturn Old_compilation_compatible].
Qed.

Lemma check_directs_trace high old directs w :
  exists evs,
    trace (snd (check_directs E high old directs w)) = trace w ++ evs /\
    Forall (fun s => In s later_sites) (sites evs).
Proof.
  unfold check_directs.
  destruct (collect_old_directs _ _ _) as [old_directs|].
  - unfold bind.
    destruct (quiet_trace (compile E (SYS_PLATFORM E) (SYS_PYTHON_VERSION E) high false) w
                (quiet_compile E _ _ _ _)) as (evs1 & Ht1 & _ & Hs1 & _).
    destruct (compile E _ _ _ _ w) as [[sys|e] w1]; simpl in Ht1.
    + destruct (check_versions_trace high old old_directs sys w1) as (evs2 & Ht2 & H2).
      exists (evs1 ++ evs2). rewrite Ht2, Ht1, app_assoc. split; [done|].
      rewrite sites_app, Hs1. simpl.
      destruct (existsb _ _); destruct H2 as (-> & _);
        (constructor; [simpl; auto|constructor]).
    + exists evs1. simpl. rewrite Hs1. by split.
  - destruct (returning_lock_trace Direct_dependency_missing high EmptyString w)
      as (evs & Ht & Hs & Hl).
    eexists. split; [exact Ht|]. simpl. rewrite Hs.
    constructor; [simpl; auto|constructor].
Qed.

Lemma check_submodules_trace high old directs w :
  exists evs,
    trace (snd (check_submodules E high old directs w)) = trace w ++ evs /\
    if submodules_differ old directs
    then sites evs = [Submodule_sha_mismatch] /\ locks evs = [(high, EmptyString)] /\
         check_submodules E high old directs w
         = returning Submodule_sha_mismatch (lock E high EmptyString) w
    else Forall (fun s => In s later_sites) (sites evs).
Proof.
  unfold check_submodules, submodules_differ. rewrite zip_nonstrict.
  destruct (existsb _ _).
  - destruct (returning_lock_trace Submodule_sha_mismatch high EmptyString w)
      as (evs & Ht & Hs & Hl).
    eexists. split; [exact Ht|]. simpl. by rewrite Hs, Hl.
  - apply check_directs_trace.
Qed.

Lemma submodules_differ_iff old directs :
  submodules_differ old directs = true <->
  exists i o n,
    finditer SUB_PAT old !! i = Some o /\ finditer SUB_PAT directs !! i = Some n /\
    groups o <> groups n.
Proof.
  unfold submodules_differ. rewrite zip_nonstrict, existsb_exists. split.
  - intros ([o n] & Hin & Hne). apply list_elem_of_In in Hin.
    apply elem_of_lookup_zip_with in Hin as (i & o' & n' & [= -> ->] & Ho & Hn).
    exists i, o', n'. split_and!; [done|done|].
    simpl in Hne. unfold strings_eqb in Hne.
    by apply negb_true_iff, bool_decide_eq_false in Hne.
  - intros (i & o & n & Ho & Hn & Hne). exists (o, n). split.
    + apply list_elem_of_In, elem_of_lookup_zip_with. by exists i, o, n.
    + simpl. unfold strings_eqb. by apply negb_true_iff, bool_decide_eq_false.
Qed.

End CheckFacts.


Section Compatibility.
Import Text Re Pat.
Context (E : Env).

Lemma collect_old_directs_Some old ds acc :
  (forall d, In d ds -> is_Some (search (direct_pat (group d "name")) old)) ->
  exists l,
    collect_old_directs old ds acc = Some (acc ++ l) /\
    forall x, In x l ->
      exists d m, In d ds /\ search (direct_pat (group d "name")) old = Some m /\
                  x = m_group m.
Proof.
  revert acc. induction ds as [|d ds IH]; intros acc H.
  - exists []. rewrite app_nil_r. by split.
  - simpl. destruct (H d (in_eq _ _)) as [m Hm]. rewrite Hm.
    destruct (IH (acc ++ [m_group m])) as (l & -> & Hl); [intros; apply H; by right|].
    exists (m_group m :: l). rewrite <- app_assoc. split; [done|].
    intros x [<-|Hx].
    + exists d, m. split_and!; [by left|done|done].
    + destruct (Hl x Hx) as (d' & m' & ? & ? & ?). exists d', m'. split_and!; [by right|done|done].
Qed.

Lemma collect_old_directs_None old ds acc :
  collect_old_directs old ds acc = None <->
  exists d, In d ds /\ search (direct_pat (group d "name")) old = None.
Proof.
  revert acc. induction ds as [|d ds IH]; intros acc; simpl.
  - split; [done|]. by intros (d & [] & _).
  - destruct (search (direct_pat (group d "name")) old) as [m|] eqn:Hm.
    + rewrite IH. split.
      * intros (d' & ? & ?). exists d'. auto.
      * intros (d' & [<-|?] & Hd'); [congruence|]. by exists d'.
    + split; [|done]. intros _. exists d. auto.
Qed.

Lemma search_UV_PAT_empty : search UV_PAT EmptyString = None.
Proof. reflexivity. Qed.

(** Once the store has a fragment stamped with the current version, the
    check recomputes the direct resolution and goes on to the submodules. *)
Lemma check_compilation_reaches_submodules high w old old_uv uv w1 directs w2 :
  get_compilation E (SYS_PLATFORM E) (SYS_PYTHON_VERSION E) high w = (Ok (VStr old), w) ->
  search UV_PAT old = Some old_uv ->
  get_uv_version E w = (Ok uv, w1) ->
  group old_uv "version" = uv ->
  compile E (SYS_PLATFORM E) (SYS_PYTHON_VERSION E) high true w1 = (Ok directs, w2) ->
  check_compilation E high w = check_submodules E high old directs w2 /\
  fs w2 = fs w /\
  exists evs, trace w2 = trace w ++ evs /\
              sites evs = [] /\ locks evs = [] /\ writes evs = [].
Proof.
  intros Hget Huv Hprobe Hver Hdir. split_and!.
  - rewrite check_compilation_stages. unfold bind at 1. rewrite Hget.
    destruct old as [|c old]; [by rewrite search_UV_PAT_empty in Huv|].
    cbn [truthy String.eqb negb]. rewrite Huv.
    unfold bind at 1. rewrite Hprobe, Hver, String.eqb_refl. cbn [negb].
    unfold bind. by rewrite Hdir.
  - destruct (quiet_trace _ w (quiet_get_uv_version E)) as (_ & _ & Hf1 & _).
    destruct (quiet_trace _ w1 (quiet_compile E (SYS_PLATFORM E)
                (SYS_PYTHON_VERSION E) high true)) as (_ & _ & Hf2 & _).
    rewrite Hprobe in Hf1. rewrite Hdir in Hf2. simpl in *. congruence.
  - destruct (quiet_trace _ w (quiet_get_uv_version E))
      as (evs1 & Ht1 & _ & Hs1 & Hl1 & Hw1).
    destruct (quiet_trace _ w1 (quiet_compile E (SYS_PLATFORM E)
                (SYS_PYTHON_VERSION E) high true))
      as (evs2 & Ht2 & _ & Hs2 & Hl2 & Hw2).
    rewrite Hprobe in Ht1. rewrite Hdir in Ht2. simpl in *.
    exists (evs1 ++ evs2).
    rewrite Ht2, Ht1, app_assoc, sites_app, locks_app, writes_app.
    by rewrite Hs1, Hs2, Hl1, Hl2, Hw1, Hw2.
Qed.

(** C1: a stored fragment stamped with the current resolver version, whose
    submodule pins equal the fresh ones pair by pair, which has a line for
    every name of the fresh direct resolution and whose lines so found
    occur in the fresh full resolution, is returned as it is; [lock] is not
    called and the files are left as they were. *)
Theorem check_compilation_idempotent high w old old_uv uv w1 directs w2
    sys_compilation w3 :
  get_compilation E (SYS_PLATFORM E) (SYS_PYTHON_VERSION E) high w = (Ok (VStr old), w) ->
  search UV_PAT old = Some old_uv ->
  get_uv_version E w = (Ok uv, w1) ->
  group old_uv "version" = uv ->
  compile E (SYS_PLATFORM E) (SYS_PYTHON_VERSION E) high true w1 = (Ok directs, w2) ->
  (forall i o n,
     finditer SUB_PAT old !! i = Some o -> finditer SUB_PAT directs !! i = Some n ->
     groups o = groups n) ->
  (forall d, In d (finditer DEP_PAT directs) ->
     is_Some (search (direct_pat (group d "name")) old)) ->
  compile E (SYS_PLATFORM E) (SYS_PYTHON_VERSION E) high false w2
    = (Ok sys_compilation, w3) ->
  (forall d m, In d (finditer DEP_PAT directs) ->
     search (direct_pat (group d "name")) old = Some m ->
     contains (m_group m) sys_compilation = true) ->
  exists w',
    check_compilation E high w = (Ok old, w') /\
    fs w' = fs w /\
    sites (new_events w w') = [Old_compilation_compatible] /\
    locks (new_events w w') = [] /\
    writes (new_events w w') = [].
Proof.
  intros Hget Huv Hprobe Hver Hdir Hsubs Hnames Hsys Hvers.
  destruct (check_compilation_reaches_submodules _ _ _ _ _ _ _ _
              Hget Huv Hprobe Hver Hdir) as (-> & Hf2 & evs2 & Ht2 & Hs2 & Hl2 & Hw2).
  unfold check_submodules. rewrite zip_nonstrict.
  assert (submodules_differ old directs = false) as Hno.
  { apply not_true_is_false. rewrite submodules_differ_iff.
    intros (i & o & n & Ho & Hn & Hne). by apply Hne, (Hsubs i). }
  unfold submodules_differ in Hno. rewrite zip_nonstrict in Hno. rewrite Hno.
  unfold check_directs.
  destruct (collect_old_directs_Some old _ [] Hnames) as (old_directs & -> & Hods).
  cbn [app]. unfold bind. rewrite Hsys. unfold check_versions.
  assert (existsb (fun d => negb (contains d sys_compilation)) old_directs = false) as ->.
  { apply not_true_is_false. rewrite existsb_exists. intros (x & Hx & Hc).
    destruct (Hods x Hx) as (d & m & Hd & Hm & ->).
    rewrite (Hvers d m Hd Hm) in Hc. done. }
  destruct (quiet_trace _ w2 (quiet_compile E (SYS_PLATFORM E)
              (SYS_PYTHON_VERSION E) high false))
    as (evs3 & Ht3 & Hf3 & Hs3 & Hl3 & Hw3).
  rewrite Hsys in Ht3, Hf3. simpl in Ht3, Hf3.
  eexists. split; [reflexivity|]. simpl.
  assert (trace w3 ++ [EvReturn Old_compilation_compatible]
          = trace w ++ (evs2 ++ evs3 ++ [EvReturn Old_compilation_compatible])) as Ht.
  { rewrite Ht3, Ht2. by rewrite <- !app_assoc. }
  unfold new_events at 1 2 3. simpl. rewrite Ht, drop_app_length.
  rewrite !sites_app, !locks_app, !writes_app, Hs2, Hs3, Hl2, Hl3, Hw2, Hw3.
  split_and!; [congruence|done|done|done].
Qed.

(** C3: the stored pins and the fresh ones are paired by position by a
    [zip] that is not strict, so it never raises and pins without a
    partner are ignored; the check leaves through the SHA-mismatch
    [return], and so through [lock], exactly when the groups of some pair
    differ, as they do when a stored SHA [A] faces a fresh SHA [B]. *)
Theorem submodule_check_relocks_iff high w old old_uv uv w1 directs w2 :
  get_compilation E (SYS_PLATFORM E) (SYS_PYTHON_VERSION E) high w = (Ok (VStr old), w) ->
  search UV_PAT old = Some old_uv ->
  get_uv_version E w = (Ok uv, w1) ->
  group old_uv "version" = uv ->
  compile E (SYS_PLATFORM E) (SYS_PYTHON_VERSION E) high true w1 = (Ok directs, w2) ->
  let olds := finditer SUB_PAT old in
  let news := finditer SUB_PAT directs in
  let w' := snd (check_compilation E high w) in
  let differ := exists i o n,
    olds !! i = Some o /\ news !! i = Some n /\ groups o <> groups n in
  zip_ false olds news = Ok (zip olds news) /\
  ~ In Submodule_missing (sites (new_events w w')) /\
  (In Submodule_sha_mismatch (sites (new_events w w')) <-> differ) /\
  (differ ->
     In (high, EmptyString) (locks (new_events w w')) /\
     check_compilation E high w
     = returning Submodule_sha_mismatch (lock E high EmptyString) w2) /\
  (forall i o n X A Y B,
     olds !! i = Some o -> news !! i = Some n ->
     groups o = [X; A] -> groups n = [Y; B] -> A <> B ->
     In Submodule_sha_mismatch (sites (new_events w w'))).
Proof.
  intros Hget Huv Hprobe Hver Hdir olds news w' differ.
  destruct (check_compilation_reaches_submodules _ _ _ _ _ _ _ _
              Hget Huv Hprobe Hver Hdir) as (Heq & Hf2 & evs2 & Ht2 & Hs2 & Hl2 & Hw2).
  destruct (check_submodules_trace E high old directs w2) as (evs & Ht & Hcase).
  assert (new_events w w' = evs2 ++ evs) as Hnew.
  { apply new_events_app. subst w'. rewrite Heq, Ht, Ht2. by rewrite app_assoc. }
  rewrite Hnew, sites_app, locks_app, Hs2, Hl2. simpl.
  assert (In Submodule_sha_mismatch (sites evs) <-> differ) as Hiff.
  { unfold differ, olds, news. rewrite <- submodules_differ_iff.
    destruct (submodules_differ old directs).
    - destruct Hcase as (-> & _). simpl. tauto.
    - split; [|done]. intros Hin. rewrite List.Forall_forall in Hcase.
      apply Hcase in Hin. simpl in Hin. intuition discriminate. }
  split_and!.
  - apply zip_nonstrict.
  - destruct (submodules_differ old directs).
    + destruct Hcase as (-> & _). simpl. intuition discriminate.
    + intros Hin. rewrite List.Forall_forall in Hcase.
      apply Hcase in Hin. simpl in Hin. intuition discriminate.
  - exact Hiff.
  - intros Hd. unfold differ, olds, news in Hd. rewrite <- submodules_differ_iff in Hd.
    rewrite Hd in Hcase. destruct Hcase as (_ & -> & Hc). split; [by left|].
    by rewrite Heq.
  - intros i o n X A Y B Ho Hn Hgo Hgn HAB. apply Hiff. exists i, o, n.
    split_and!; [done|done|]. rewrite Hgo, Hgn. congruence.
Qed.

End Compatibility.


Section FormatFacts.
Import Text Re Pat.

Lemma join_snoc (l : list string) (x : string) :
  l <> [] -> join nl (l ++ [x]) = join nl l +:+ nl +:+ x.
Proof.
  induction l as [|y l IH]; [done|]. intros _.
  destruct l as [|z l]; [done|].
  change (join nl ((y :: z :: l) ++ [x])) with (y +:+ nl +:+ join nl ((z :: l) ++ [x])).
  rewrite IH by done.
  change (join nl (y :: z :: l)) with (y +:+ nl +:+ join nl (z :: l)).
  by rewrite !append_assoc.
Qed.

Lemma pin_line_last_char (sr : string * string) :
  stripped sr -> last_char (pin_line sr) <> Some LF.
Proof.
  destruct sr as [sub rev]. intros [s Hs]. cbn [snd] in Hs.
  unfold pin_line. cbn [fst snd]. rewrite <- !append_assoc. destruct rev as [|c rev].
  - rewrite append_nil_r, last_char_append by done. by vm_compute.
  - rewrite last_char_append by done. intros H. rewrite Hs in H.
    apply last_char_strip in H. by vm_compute in H.
Qed.

Lemma strip_last_char (s : string) : last_char (strip s) <> Some LF.
Proof. intros H. apply last_char_strip in H. by vm_compute in H. Qed.

End FormatFacts.

Section CompileAndLock.
Import Text Re Pat.
Context (E : Env).

(** C9: a store file that is there but does not decode makes
    [get_compilation], and with it [check_compilation], raise the decoding
    error; nothing is run and [lock] is not called. *)
Theorem get_compilation_corrupt_store high platform python_version w text :
  fs w !! get_lockfile high = Some text ->
  loads E text = None ->
  get_compilation E platform python_version high w = (Raise JSONDecodeError, w) /\
  check_compilation E high w = (Raise JSONDecodeError, w).
Proof.
  intros Hfile Hloads. unfold check_compilation, bind, get_compilation.
  by rewrite Hfile, Hloads.
Qed.

Lemma compile_first_run p v h nd w frag w' :
  compile E p v h nd w = (Ok frag, w') ->
  exists evs, trace w' = trace w ++ EvRun (UvPipCompile p v h nd)
                                     (proc E (clock w) (UvPipCompile p v h nd)) :: evs.
Proof.
  rewrite compile_unfold. cbv zeta.
  destruct (negb (Shlex.splits _)); [done|]. destruct (negb (_ =? _)%Z); [done|].
  destruct (quiet_trace _ (tick E (UvPipCompile p v h nd) w)
              (quiet_submodule_revs E (finditer SUBMODULE_REF (DEV_text E)) []))
    as (evs1 & Ht1 & _).
  destruct (submodule_revs E _ _ _) as [[submodules|e] w1]; [|done].
  destruct (quiet_trace _ w1 (quiet_get_uv_version E)) as (evs2 & Ht2 & _).
  destruct (get_uv_version E w1) as [[uv|e] w2]; [|done].
  intros [= <- <-]. simpl in *. exists (evs1 ++ evs2).
  rewrite Ht2, Ht1. by rewrite <- !app_assoc.
Qed.

Lemma lock_versions_runs platform versions high st w st' w' :
  lock_versions E platform versions high st w = (Ok st', w') ->
  exists evs, trace w' = trace w ++ evs /\
    forall v, In v versions ->
      exists res, In (UvPipCompile platform v high false, res) (runs evs).
Proof.
  revert st w. induction versions as [|v versions IH]; intros [d s] w H.
  - simpl in H. unfold ret in H. simplify_eq. exists []. by rewrite app_nil_r.
  - simpl in H. unfold bind in H.
    destruct (compile E platform v high false w) as [[c|e] w1] eqn:Hc; [|done].
    apply compile_first_run in Hc as (evs1 & Ht1).
    apply IH in H as (evs2 & Ht2 & Hruns).
    exists ((EvRun (UvPipCompile platform v high false)
               (proc E (clock w) (UvPipCompile platform v high false)) :: evs1) ++ evs2).
    rewrite Ht2, Ht1, <- app_assoc. split; [done|].
    intros v' [<-|Hin].
    + eexists. rewrite runs_app. apply in_app_iff. left. simpl. by left.
    + destruct (Hruns v' Hin) as [res Hres]. exists res.
      rewrite runs_app. apply in_app_iff. by right.
Qed.

Lemma lock_platforms_runs platforms high st w st' w' :
  lock_platforms E platforms high st w = (Ok st', w') ->
  exists evs, trace w' = trace w ++ evs /\
    forall p v, In p platforms -> In v (PYTHON_VERSIONS E) ->
      exists res, In (UvPipCompile p v high false, res) (runs evs).
Proof.
  revert st w. induction platforms as [|p platforms IH]; intros st w H.
  - simpl in H. unfold ret in H. simplify_eq. exists []. by rewrite app_nil_r.
  - simpl in H. unfold bind in H.
    destruct (lock_versions E p (PYTHON_VERSIONS E) high st w) as [[st1|e] w1] eqn:Hv;
      [|done].
    apply lock_versions_runs in Hv as (evs1 & Ht1 & Hr1).
    apply IH in H as (evs2 & Ht2 & Hr2).
    exists (evs1 ++ evs2). rewrite Ht2, Ht1, <- app_assoc. split; [done|].
    intros p' v [<-|Hin] Hv.
    + destruct (Hr1 v Hv) as [res Hres]. exists res.
      rewrite runs_app. apply in_app_iff. by left.
    + destruct (Hr2 p' v Hin Hv) as [res Hres]. exists res.
      rewrite runs_app. apply in_app_iff. by right.
Qed.

Lemma lock_runs high s w r w' :
  lock E high s w = (Ok r, w') ->
  forall p v, In p PLATFORMS -> In v (PYTHON_VERSIONS E) ->
    exists res, In (UvPipCompile p v high false, res) (runs (new_events w w')).
Proof.
  rewrite lock_unfold.
  destruct (lock_platforms E PLATFORMS high _ _) as [[st|e] w1] eqn:Hl; [|done].
  intros [= <- <-] p v Hp Hv.
  apply lock_platforms_runs in Hl as (evs & Ht & Hruns).
  destruct (Hruns p v Hp Hv) as [res Hres]. exists res.
  simpl in Ht.
  erewrite new_events_app; [|simpl; rewrite Ht, <- !app_assoc; reflexivity].
  rewrite !runs_app. apply in_app_iff. right. apply in_app_iff. by left.
Qed.

(** Whatever fragment it is given, a [lock] that returns has run the
    resolver for every supported pair; a given fragment that is not empty
    comes back as the result. *)
Lemma lock_returns_supplied high s w r w' :
  s <> EmptyString ->
  lock E high s w = (Ok r, w') ->
  r = s /\
  forall p v, In p PLATFORMS -> In v (PYTHON_VERSIONS E) ->
    exists res, In (UvPipCompile p v high false, res) (runs (new_events w w')).
Proof.
  intros Hs H. split; [|by eapply lock_runs].
  apply (lock_ok E (fun _ => True)) in H
    as (d & evs & _ & _ & _ & _ & _ & _ & Hret); [|done].
  by destruct Hret as [->|(? & _)].
Qed.

End CompileAndLock.


Section Relock.
Import Text Re Pat.
Context (E : Env).

(** What a relock from [check_compilation] without a computed fragment
    yields, under a probe that reads [uv] at every instant. *)
Lemma relock_stamps uv s high w :
  (forall t, parse_version (stdout (proc E t UvVersion)) = Some uv) ->
  let res := returning s (lock E high EmptyString) w in
  (exists evs, trace (snd res) = trace w ++ evs /\
               sites evs = [s] /\ locks evs = [(high, EmptyString)]) /\
  forall r, fst res = Ok r ->
    exists lock_contents : gmap string string,
      dom lock_contents = lock_keys E high /\
      fs (snd res) = <[get_lockfile high := dumps E lock_contents +:+ nl]> (fs w) /\
      map_Forall (fun _ => stamped uv) lock_contents /\
      (r = EmptyString \/ stamped uv r).
Proof.
  intros Hprobe res. split.
  - destruct (returning_lock_trace E s high EmptyString w) as (evs & Ht & Hs & Hl).
    eexists. split; [exact Ht|]. simpl. by rewrite Hs, Hl.
  - intros r Hr. subst res. unfold returning, bind, emit in *. simpl in *.
    set (w1 := mkWorld _ _ _) in *.
    destruct (lock E high EmptyString w1) as [[r'|e] w'] eqn:Hlock; [|done].
    simpl in Hr. injection Hr as ->.
    apply (lock_ok E (stamped uv)) in Hlock
      as (d & evs & Hd & Hdom & Hfs & _ & _ & _ & Hret).
    2:{ intros p v w2 frag w3. apply compile_header, Hprobe. }
    exists d. simpl. split_and!; [done|done|done|].
    destruct Hret as [->|(_ & _ & _ & ?)]; auto.
Qed.

(** C6: a stored fragment whose header is missing, malformed or stamped
    with another version than the probe reads makes [check_compilation]
    call [lock]; every fragment that call writes, and the one it returns,
    starts with the header line of the probed version. *)
Theorem stale_resolver_version_relocks high w old uv :
  (forall t, returncode (proc E t UvVersion) = 0%Z) ->
  (forall t, parse_version (stdout (proc E t UvVersion)) = Some uv) ->
  get_compilation E (SYS_PLATFORM E) (SYS_PYTHON_VERSION E) high w = (Ok (VStr old), w) ->
  (forall m, search UV_PAT old = Some m -> group m "version" <> uv) ->
  let res := check_compilation E high w in
  locks (new_events w (snd res)) = [(high, EmptyString)] /\
  (exists s, sites (new_events w (snd res)) = [s] /\
             In s [Old_compilation_missing; Unknown_uv_version; Older_uv_version]) /\
  forall r, fst res = Ok r ->
    exists lock_contents : gmap string string,
      dom lock_contents = lock_keys E high /\
      fs (snd res) = <[get_lockfile high := dumps E lock_contents +:+ nl]> (fs w) /\
      map_Forall (fun _ => stamped uv) lock_contents /\
      (r = EmptyString \/ stamped uv r).
Proof.
  intros Hrc Hprobe Hget Hstale res.
  assert (exists s w1 evs1,
            In s [Old_compilation_missing; Unknown_uv_version; Older_uv_version] /\
            res = returning s (lock E high EmptyString) w1 /\
            fs w1 = fs w /\ trace w1 = trace w ++ evs1 /\
            sites evs1 = [] /\ locks evs1 = []) as Hcase.
  { subst res. rewrite check_compilation_stages. unfold bind at 1. rewrite Hget.
    destruct old as [|c old].
    - exists Old_compilation_missing, w, []. rewrite app_nil_r.
      split_and!; simpl; auto.
    - cbn [truthy String.eqb negb].
      destruct (search UV_PAT (String c old)) as [m|] eqn:Hm.
      + unfold bind at 1.
        rewrite (get_uv_version_succeeds E w uv) by auto.
        specialize (Hstale m eq_refl). apply String.eqb_neq in Hstale.
        rewrite Hstale. cbn [negb].
        exists Older_uv_version, (tick E UvVersion w),
          [EvRun UvVersion (proc E (clock w) UvVersion)].
        split_and!; simpl; auto.
      + exists Unknown_uv_version, w, []. rewrite app_nil_r.
        split_and!; simpl; auto. }
  destruct Hcase as (s & w1 & evs1 & Hs & Hres & Hfs & Ht & Hs1 & Hl1).
  destruct (relock_stamps uv s high w1 Hprobe) as ((evs & Hte & Hse & Hle) & Hok).
  assert (new_events w (snd res) = evs1 ++ evs) as Hnew.
  { apply new_events_app. rewrite Hres, Hte, Ht. by rewrite app_assoc. }
  rewrite Hnew, sites_app, locks_app, Hs1, Hl1, Hse, Hle.
  split_and!; [done|by exists s|].
  intros r Hr. rewrite Hres in Hr |- *. rewrite <- Hfs. by apply Hok.
Qed.

End Relock.


Section LaterChecks.
Import Text Re Pat.
Context (E : Env).

(** The search for the direct dependencies leaves through its [return]
    exactly when some name of the direct resolution finds no line. *)
Lemma direct_check_relocks_iff high w old old_uv uv w1 directs w2 :
  get_compilation E (SYS_PLATFORM E) (SYS_PYTHON_VERSION E) high w = (Ok (VStr old), w) ->
  search UV_PAT old = Some old_uv ->
  get_uv_version E w = (Ok uv, w1) ->
  group old_uv "version" = uv ->
  compile E (SYS_PLATFORM E) (SYS_PYTHON_VERSION E) high true w1 = (Ok directs, w2) ->
  submodules_differ old directs = false ->
  let w' := snd (check_compilation E high w) in
  In Direct_dependency_missing (sites (new_events w w')) <->
  exists d, In d (finditer DEP_PAT directs) /\
            search (direct_pat (group d "name")) old = None.
Proof.
  intros Hget Huv Hprobe Hver Hdir Hno w'.
  destruct (check_compilation_reaches_submodules E _ _ _ _ _ _ _ _
              Hget Huv Hprobe Hver Hdir) as (Heq & Hf2 & evs2 & Ht2 & Hs2 & Hl2 & Hw2).
  rewrite <- collect_old_directs_None with (acc := []).
  subst w'. rewrite Heq. unfold check_submodules.
  unfold submodules_differ in Hno. rewrite zip_nonstrict in *. rewrite Hno.
  unfold check_directs.
  destruct (collect_old_directs old (finditer DEP_PAT directs) []) as [ods|].
  - unfold bind.
    destruct (quiet_trace _ w2 (quiet_compile E (SYS_PLATFORM E)
                (SYS_PYTHON_VERSION E) high false)) as (evs3 & Ht3 & _ & Hs3 & _).
    destruct (compile E _ _ high false w2) as [[sys|e] w3]; simpl in Ht3.
    + destruct (check_versions_trace E high old ods sys w3) as (evs4 & Ht4 & Hcase).
      erewrite new_events_app;
        [|rewrite Ht4, Ht3, Ht2, <- !app_assoc; reflexivity].
      rewrite !sites_app, Hs2, Hs3. simpl.
      destruct (existsb (fun d => negb (contains d sys)) ods);
        destruct Hcase as (-> & _); simpl; split; intros; intuition discriminate.
    + simpl. erewrite new_events_app; [|rewrite Ht3, Ht2, <- !app_assoc; reflexivity].
      rewrite !sites_app, Hs2, Hs3. simpl. split; [done|discriminate].
  - destruct (returning_lock_trace E Direct_dependency_missing high EmptyString w2)
      as (evs & Ht & Hs & Hl).
    erewrite new_events_app; [|rewrite Ht, Ht2, <- !app_assoc; reflexivity].
    rewrite sites_app, Hs2. simpl. tauto.
Qed.

(** The comparison of the versions leaves through [lock], handing it the
    full fragment just computed, exactly when some stored line found does
    not occur in that fragment. *)
Lemma version_check_relocks_iff high w old old_uv uv w1 directs w2 old_directs
    sys_compilation w3 :
  get_compilation E (SYS_PLATFORM E) (SYS_PYTHON_VERSION E) high w = (Ok (VStr old), w) ->
  search UV_PAT old = Some old_uv ->
  get_uv_version E w = (Ok uv, w1) ->
  group old_uv "version" = uv ->
  compile E (SYS_PLATFORM E) (SYS_PYTHON_VERSION E) high true w1 = (Ok directs, w2) ->
  submodules_differ old directs = false ->
  collect_old_directs old (finditer DEP_PAT directs) [] = Some old_directs ->
  compile E (SYS_PLATFORM E) (SYS_PYTHON_VERSION E) high false w2
    = (Ok sys_compilation, w3) ->
  let w' := snd (check_compilation E high w) in
  let missing := exists d, In d old_directs /\ contains d sys_compilation = false in
  (In Direct_dependency_version_mismatch (sites (new_events w w')) <-> missing) /\
  (missing ->
   check_compilation E high w
   = returning Direct_dependency_version_mismatch (lock E high sys_compilation) w3) /\
  (~ missing -> fst (check_compilation E high w) = Ok old).
Proof.
  intros Hget Huv Hprobe Hver Hdir Hno Hods Hsys w' missing.
  destruct (check_compilation_reaches_submodules E _ _ _ _ _ _ _ _
              Hget Huv Hprobe Hver Hdir) as (Heq & Hf2 & evs2 & Ht2 & Hs2 & Hl2 & Hw2).
  assert (check_compilation E high w
          = check_versions E high old old_directs sys_compilation w3) as Heq'.
  { rewrite Heq. unfold check_submodules.
    unfold submodules_differ in Hno. rewrite zip_nonstrict in *. rewrite Hno.
    unfold check_directs. rewrite Hods. unfold bind. by rewrite Hsys. }
  destruct (quiet_trace _ w2 (quiet_compile E (SYS_PLATFORM E)
              (SYS_PYTHON_VERSION E) high false)) as (evs3 & Ht3 & _ & Hs3 & _).
  rewrite Hsys in Ht3. simpl in Ht3.
  destruct (check_versions_trace E high old old_directs sys_compilation w3)
    as (evs4 & Ht4 & Hcase).
  assert (existsb (fun d => negb (contains d sys_compilation)) old_directs = true
          <-> missing) as Hex.
  { rewrite existsb_exists. unfold missing.
    split; intros (d & Hd & Hc); exists d; split; auto.
    - by apply negb_true_iff.
    - by apply negb_true_iff. }
  subst w'. rewrite Heq'.
  erewrite new_events_app; [|rewrite Ht4, Ht3, Ht2, <- !app_assoc; reflexivity].
  rewrite !sites_app, Hs2, Hs3. simpl.
  unfold check_versions in *.
  destruct (existsb (fun d => negb (contains d sys_compilation)) old_directs).
  - destruct Hcase as (-> & _). split_and!.
    + simpl. intuition.
    + done.
    + intros Hn. destruct Hn. by apply Hex.
  - destruct Hcase as (-> & _). split_and!.
    + simpl. split; [intuition discriminate|]. intros Hm. apply Hex in Hm. done.
    + intros Hm. apply Hex in Hm. done.
    + done.
Qed.

End LaterChecks.

Section Evaluations.
Import Text Re Pat Examples.

(** C2: [lock], given the fragment already computed for the current pair,
    runs the resolver for that pair once more and writes what this second
    run yields, while it returns the fragment it was given: here it returns
    [foo==1.1] and stores [foo==1.2] under [linux_3.11]. *)
Theorem lock_recompiles_supplied_fragment :
  let res := lock release_env false fragment_1_1 late_world in
  fst res = Ok fragment_1_1 /\
  filter (fun cr => is_compile_of "linux" "3.11" cr = true)
    (runs (new_events late_world (snd res)))
  = [(UvPipCompile "linux" "3.11" false false, ok (unlines ["foo==1.2"]))] /\
  fs (snd res) !! "lock.json"
  = Some (Json.dumps (uniform_store release_env false fragment_1_2) +:+ nl) /\
  uniform_store release_env false fragment_1_2 !! "linux_3.11" = Some fragment_1_2 /\
  fragment_1_2 <> fragment_1_1.
Proof. vm_compute. split_and!; try reflexivity. discriminate. Qed.

(** C4: when a stored line is missing from the full fragment,
    [check_compilation] hands that fragment to [lock] and returns it, but
    [lock] compiles the current pair a second time and stores the second
    result: the full resolution for [linux], [3.11] is run twice. *)
Theorem version_mismatch_relock_recompiles :
  let res := check_compilation release_env false unchanged_world in
  let evs := new_events unchanged_world (snd res) in
  fst res = Ok fragment_1_1 /\
  sites evs = [Direct_dependency_version_mismatch] /\
  locks evs = [(false, fragment_1_1)] /\
  filter (fun cr => is_compile_of "linux" "3.11" cr = true) (runs evs)
  = [(UvPipCompile "linux" "3.11" false false, ok (unlines ["foo==1.1"]));
     (UvPipCompile "linux" "3.11" false false, ok (unlines ["foo==1.2"]))] /\
  fs (snd res) !! "lock.json"
  = Some (Json.dumps (uniform_store release_env false fragment_1_2) +:+ nl).
Proof. vm_compute. split_and!; reflexivity. Qed.

(** C5: the name of a direct dependency is spliced into the pattern as it
    stands, so the full stop of [a.b] matches any character: the stored
    line of the other package [axb] is taken for it, and the stored
    fragment, which has no line for [a.b], is returned as compatible. *)
Theorem dotted_name_matches_other_package :
  let res := check_compilation dotted_env false dotted_world in
  let evs := new_events dotted_world (snd res) in
  names_in (unlines ["# uv 1.2.0"; "a.b==1.0"]) = ["a.b"] /\
  names_in dotted_fragment = ["axb"] /\
  search (direct_pat "a.b") dotted_fragment
  = Some (mkMatch 11 "axb==1.0" [("name", "axb"); ("ver", "1.0")]) /\
  fst res = Ok dotted_fragment /\
  sites evs = [Old_compilation_compatible] /\
  locks evs = [].
Proof. vm_compute. split_and!; reflexivity. Qed.

(** A resolution that fails for the last pair: [lock] raises with the
    resolver's error text and has written nothing. *)
Example lock_failure_leaves_store :
  let res := lock failing_env false EmptyString empty_world in
  fst res = Raise (RuntimeError "No solution found") /\
  fs (snd res) = fs empty_world /\
  writes (trace (snd res)) = [].
Proof. vm_compute. split_and!; reflexivity. Qed.

(** C8, refuted as stated.  With a probe that prints two spaces after the
    name the probed version is empty, and no line of the fragment, the
    first one included, matches [UV_PAT]; with a list of uncompiled
    dependencies whose last line is blank the fragment ends with two line
    feeds.  With a probe that breaks its line after the version, and
    nothing else to write, the header is the only line and the fragment
    again ends with two line feeds. *)
Lemma compile_breaks_format :
  (exists body w',
     compile misprinted_env "linux" "3.11" false false empty_world
     = (Ok (body +:+ nl), w') /\
     match_at UV_PAT EmptyString (body +:+ nl) = None /\
     search UV_PAT (body +:+ nl) = None /\
     last_char body = Some LF) /\
  (exists w',
     compile wrapped_env "linux" "3.11" false false empty_world
     = (Ok ("# uv 1.2.0" +:+ nl +:+ nl), w')).
Proof.
  split.
  - exists (unlines ["# uv "; "foo==1.0"; "bar"]). eexists.
    split_and!; vm_compute; reflexivity.
  - eexists. vm_compute. reflexivity.
Qed.

(** A submodule reference that holds an apostrophe: the resolver runs,
    then [shlex.split] cannot cut the [git rev-parse] line, and [compile]
    raises [ValueError] before any lookup. *)
Example quoted_reference_raises :
  let res := compile remarked_env "linux" "3.11" false false empty_world in
  fst res = Raise ValueError /\
  map fst (runs (trace (snd res))) = [UvPipCompile "linux" "3.11" false false].
Proof. vm_compute. split; reflexivity. Qed.

End Evaluations.


Section Instances.
Import Text Re Pat Examples.

Lemma check_compilation_idempotent_witness :
  exists w',
    check_compilation unchanged_env false unchanged_world = (Ok unchanged_fragment, w') /\
    fs w' = fs unchanged_world /\
    sites (new_events unchanged_world w') = [Old_compilation_compatible] /\
    locks (new_events unchanged_world w') = [] /\
    writes (new_events unchanged_world w') = [].
Proof.
  eapply (check_compilation_idempotent unchanged_env false unchanged_world
            unchanged_fragment).
  - vm_compute; reflexivity.
  - vm_compute; reflexivity.
  - vm_compute; reflexivity.
  - vm_compute; reflexivity.
  - vm_compute; reflexivity.
  - intros i o n H. vm_compute in H. destruct i; discriminate.
  - intros d H. vm_compute in H. destruct H as [<-|[]]. vm_compute. eauto.
  - vm_compute; reflexivity.
  - intros d m H. vm_compute in H. destruct H as [<-|[]].
    vm_compute. intros [= <-]. reflexivity.
Defined.

Lemma submodule_check_relocks_iff_witness :
  In Submodule_sha_mismatch
    (sites (new_events moved_world (snd (check_compilation moved_env false moved_world)))).
Proof.
  edestruct (submodule_check_relocks_iff moved_env false moved_world pinned_fragment)
    as (_ & _ & _ & _ & H); [vm_compute; reflexivity ..|].
  eapply (H 0); [vm_compute; reflexivity ..|]. vm_compute. discriminate.
Defined.

Lemma stale_resolver_version_relocks_witness :
  let res := check_compilation upgraded_env false unchanged_world in
  locks (new_events unchanged_world (snd res)) = [(false, EmptyString)] /\
  (exists s, sites (new_events unchanged_world (snd res)) = [s] /\
             In s [Old_compilation_missing; Unknown_uv_version; Older_uv_version]) /\
  forall r, fst res = Ok r ->
    exists lock_contents : gmap string string,
      dom lock_contents = lock_keys upgraded_env false /\
      fs (snd res)
      = <[get_lockfile false := dumps upgraded_env lock_contents +:+ nl]>
          (fs unchanged_world) /\
      map_Forall (fun _ => stamped "1.3.0") lock_contents /\
      (r = EmptyString \/ stamped "1.3.0" r).
Proof.
  apply (stale_resolver_version_relocks upgraded_env false unchanged_world
           unchanged_fragment "1.3.0").
  - intros t. reflexivity.
  - intros t. reflexivity.
  - vm_compute. reflexivity.
  - intros m H. vm_compute in H. injection H as <-. vm_compute. discriminate.
Defined.

Lemma get_compilation_corrupt_store_witness :
  get_compilation unchanged_env "linux" "3.11" false corrupt_world
  = (Raise JSONDecodeError, corrupt_world) /\
  check_compilation unchanged_env false corrupt_world
  = (Raise JSONDecodeError, corrupt_world).
Proof.
  apply (get_compilation_corrupt_store unchanged_env false "linux" "3.11"
           corrupt_world "{").
  - vm_compute. reflexivity.
  - vm_compute. reflexivity.
Defined.

End Instances.


(** * Further properties *)

Section Keys.
Import Text Re Pat.

Lemma length_append (a b : string) :
  String.length (a +:+ b) = String.length a + String.length b.
Proof.
  induction a as [|x a IH]; [done|]. rewrite append_cons. cbn [String.length].
  by rewrite IH.
Qed.

Lemma append_inj_r (a b c : string) : a +:+ c = b +:+ c -> a = b.
Proof.
  revert b. induction a as [|x a IH]; intros [|y b] H.
  - done.
  - apply (f_equal String.length) in H.
    rewrite append_nil_l, append_cons in H. cbn [String.length] in H.
    rewrite length_append in H. lia.
  - apply (f_equal String.length) in H.
    rewrite append_nil_l, append_cons in H. cbn [String.length] in H.
    rewrite length_append in H. lia.
  - rewrite !append_cons in H. injection H as -> H. f_equal. by apply IH.
Qed.

Lemma get_compilation_key_eq (p v : string) (high : bool) :
  get_compilation_key p v high
  = p +:+ "_" +:+ v +:+ (if high then "_high" else EmptyString).
Proof.
  unfold get_compilation_key. destruct high; cbn [app join].
  - reflexivity.
  - by rewrite append_nil_r.
Qed.

(** No supported platform is the start of another one followed by an
    underscore, so the platform can be read off the front of a key. *)
Lemma platform_prefix_inj (p p' x y : string) :
  In p PLATFORMS -> In p' PLATFORMS ->
  p +:+ "_" +:+ x = p' +:+ "_" +:+ y -> p = p' /\ x = y.
Proof.
  intros Hp Hp'.
  assert (forall q, In q PLATFORMS -> q = "linux" \/ q = "macos" \/ q = "windows") as Hq.
  { intros q [<-|[<-|[<-|[]]]]; auto. }
  apply Hq in Hp, Hp'.
  destruct Hp as [-> | [-> | ->]], Hp' as [-> | [-> | ->]];
    rewrite !append_cons, !append_nil_l; intros H;
    try discriminate H; by simplify_eq.
Qed.

Lemma get_compilation_key_neq (p v p' v' : string) (high : bool) :
  In p PLATFORMS -> In p' PLATFORMS -> ~ (p = p' /\ v = v') ->
  get_compilation_key p v high <> get_compilation_key p' v' high.
Proof.
  intros Hp Hp' Hne H. apply Hne. rewrite !get_compilation_key_eq in H.
  apply platform_prefix_inj in H as [-> H]; [|done|done].
  split; [done|]. by apply append_inj_r in H.
Qed.

(** X1: for one resolution mode, two supported platforms with two versions
    get the same key only when they are the same platform and the same
    version. *)
Theorem get_compilation_key_inj (p v p' v' : string) (high : bool) :
  In p PLATFORMS -> In p' PLATFORMS ->
  get_compilation_key p v high = get_compilation_key p' v' high ->
  p = p' /\ v = v'.
Proof.
  intros Hp Hp' H. rewrite !get_compilation_key_eq in H.
  apply platform_prefix_inj in H as [-> H]; [|done|done].
  split; [done|]. eapply append_inj_r. exact H.
Qed.

End Keys.


Section LockStore.
Import Text Re Pat.
Context (E : Env).

Lemma lock_key_list_NoDup (high : bool) :
  NoDup (PYTHON_VERSIONS E) ->
  NoDup (flat_map
           (fun p => map (fun v => get_compilation_key p v high) (PYTHON_VERSIONS E))
           PLATFORMS).
Proof.
  intros Hv.
  assert (forall p, In p PLATFORMS ->
            NoDup (map (fun v => get_compilation_key p v high) (PYTHON_VERSIONS E))) as Hp.
  { intros p Hp. apply NoDup_fmap_2_strong; [|done].
    intros v v' _ _ H. apply dec_stable. intros Hne.
    by apply (get_compilation_key_neq p v p v' high Hp Hp); [intros [_ ?]|]. }
  assert (forall p p' k, In p PLATFORMS -> In p' PLATFORMS -> p <> p' ->
            k ∈ map (fun v => get_compilation_key p v high) (PYTHON_VERSIONS E) ->
            k ∉ map (fun v => get_compilation_key p' v high) (PYTHON_VERSIONS E)) as Hd.
  { intros p p' k Hp1 Hp2 Hne (v & -> & _)%list_elem_of_fmap (v' & H & _)%list_elem_of_fmap.
    by apply (get_compilation_key_neq p v p' v' high Hp1 Hp2); [intros [? _]|]. }
  unfold PLATFORMS in *. cbn [flat_map]. rewrite app_nil_r.
  apply NoDup_app. split_and!.
  - apply Hp. simpl; auto.
  - intros k Hk [Hk'|Hk']%elem_of_app; revert Hk'; apply (Hd "linux"); simpl; auto.
  - apply NoDup_app. split_and!.
    + apply Hp. simpl; auto.
    + intros k Hk. apply (Hd "macos"); simpl; auto.
    + apply Hp. simpl; auto.
Qed.

(** X2: when the supported versions are pairwise distinct, the mapping a
    completed [lock] writes has exactly one entry for every pair of a
    supported platform and a supported version. *)
Theorem lock_writes_one_entry_per_pair high s w r w' :
  NoDup (PYTHON_VERSIONS E) ->
  lock E high s w = (Ok r, w') ->
  exists lock_contents : gmap string string,
    fs w' !! get_lockfile high = Some (dumps E lock_contents +:+ nl) /\
    size lock_contents = length PLATFORMS * length (PYTHON_VERSIONS E) /\
    forall p v, In p PLATFORMS -> In v (PYTHON_VERSIONS E) ->
      is_Some (lock_contents !! get_compilation_key p v high).
Proof.
  intros Hv H.
  apply (lock_ok E (fun _ => True)) in H
    as (d & evs & _ & Hdom & Hfs & _); [|done].
  exists d. split_and!.
  - rewrite Hfs. apply lookup_insert_eq.
  - rewrite <- size_dom, Hdom. unfold lock_keys.
    rewrite size_list_to_set by by apply lock_key_list_NoDup.
    unfold PLATFORMS. cbn [flat_map length]. rewrite !length_app, !length_map.
    cbn [length]. lia.
  - intros p v Hp Hv'. apply elem_of_dom. rewrite Hdom. unfold lock_keys.
    apply elem_of_list_to_set, list_elem_of_In, in_flat_map.
    exists p. split; [done|]. apply in_map_iff. by exists v.
Qed.

Lemma compile_nonempty p v h nd w frag w' :
  compile E p v h nd w = (Ok frag, w') -> frag <> EmptyString.
Proof.
  intros (submodules & w1 & uv & _ & _ & ->)%compile_Ok.
  unfold fragment_lines. cbn [app]. rewrite unlines_cons. discriminate.
Qed.

Lemma lock_versions_stored p versions high (d : gmap string string) s w
    (d' : gmap string string) s' w' :
  In p PLATFORMS -> In (SYS_PLATFORM E) PLATFORMS -> NoDup versions ->
  lock_versions E p versions high (d, s) w = (Ok (d', s'), w') ->
  (s <> EmptyString ->
   d !! key_sys E high = Some s /\ (p = SYS_PLATFORM E -> ~ In (SYS_PYTHON_VERSION E) versions)) ->
  (s' <> EmptyString -> d' !! key_sys E high = Some s') /\
  (s = EmptyString -> s' <> EmptyString ->
   p = SYS_PLATFORM E /\ In (SYS_PYTHON_VERSION E) versions).
Proof.
  intros Hp Hsys. revert d s w. induction versions as [|v versions IH];
    intros d s w Hnd H Hinv.
  - simpl in H. unfold ret in H. simplify_eq. split; [|done]. intros Hs. by apply Hinv.
  - simpl in H. unfold bind in H.
    destruct (compile E p v high false w) as [[c|e] w1] eqn:Hc; [|done].
    apply NoDup_cons in Hnd as [Hv Hnd'].
    destruct (String.eqb s EmptyString) eqn:Hs0; cbn [andb] in H.
    + apply String.eqb_eq in Hs0 as ->.
      destruct (String.eqb p (SYS_PLATFORM E)) eqn:Hp0; cbn [andb] in H.
      * apply String.eqb_eq in Hp0 as ->.
        destruct (String.eqb v (SYS_PYTHON_VERSION E)) eqn:Hv0.
        -- apply String.eqb_eq in Hv0 as ->.
           apply IH in H as [Hst _]; [|done|].
           ++ split; [done|]. intros _ _. split; [done|by left].
           ++ intros _. split; [apply lookup_insert_eq|].
              intros _ Hin. apply Hv. by apply list_elem_of_In.
        -- apply IH in H as [Hst Hset]; [|done|done].
           split; [done|]. intros _ Hs'. destruct (Hset eq_refl Hs') as [_ ?].
           split; [done|by right].
      * apply IH in H as [Hst Hset]; [|done|done].
        split; [done|]. intros _ Hs'. destruct (Hset eq_refl Hs') as [-> _].
        by rewrite String.eqb_refl in Hp0.
    + apply String.eqb_neq in Hs0. destruct (Hinv Hs0) as [Hd Hnot].
      apply IH in H as [Hst _]; [|done|].
      * split; [done|]. by intros ->.
      * intros _. split.
        -- rewrite lookup_insert_ne; [done|].
           apply get_compilation_key_neq; [done|done|].
           intros [-> ->]. apply Hnot; [done|by left].
        -- intros Hp0 Hin. apply Hnot; [done|by right].
Qed.

Lemma lock_platforms_stored platforms high (d : gmap string string) s w
    (d' : gmap string string) s' w' :
  incl platforms PLATFORMS -> In (SYS_PLATFORM E) PLATFORMS ->
  NoDup platforms -> NoDup (PYTHON_VERSIONS E) ->
  lock_platforms E platforms high (d, s) w = (Ok (d', s'), w') ->
  (s <> EmptyString -> d !! key_sys E high = Some s /\ ~ In (SYS_PLATFORM E) platforms) ->
  (s' <> EmptyString -> d' !! key_sys E high = Some s') /\
  (s = EmptyString -> s' <> EmptyString ->
   In (SYS_PLATFORM E) platforms /\ In (SYS_PYTHON_VERSION E) (PYTHON_VERSIONS E)).
Proof.
  intros Hincl Hsys. revert d s w. induction platforms as [|p platforms IH];
    intros d s w Hnd Hv H Hinv.
  - simpl in H. unfold ret in H. simplify_eq. split; [|done]. intros Hs. by apply Hinv.
  - simpl in H. unfold bind in H.
    destruct (lock_versions E p (PYTHON_VERSIONS E) high (d, s) w)
      as [[[d1 s1]|e] w1] eqn:Hlv; [|done].
    apply NoDup_cons in Hnd as [Hp Hnd'].
    assert (In p PLATFORMS) as HpP by (apply Hincl; by left).
    assert (incl platforms PLATFORMS) as Hincl' by (intros q ?; apply Hincl; by right).
    eapply lock_versions_stored in Hlv as [Hst1 Hset1]; [|done|done|done|].
    2:{ intros Hs. destruct (Hinv Hs) as [Hd Hnot]. split; [done|].
        intros -> _. apply Hnot. by left. }
    apply (IH Hincl') in H as [Hst Hset]; [|done|done|].
    + split; [done|]. intros Hs Hs'.
      destruct (decide (s1 = EmptyString)) as [Hs1|Hs1].
      * destruct (Hset Hs1 Hs') as [? ?]. split; [by right|done].
      * destruct (Hset1 Hs Hs1) as [-> ?]. split; [by left|done].
    + intros Hs1. split; [by apply Hst1|].
      destruct (decide (s = EmptyString)) as [Hs|Hs].
      * destruct (Hset1 Hs Hs1) as [-> _]. intros Hin. apply Hp.
        by apply list_elem_of_In.
      * destruct (Hinv Hs) as [_ Hnot]. intros Hin. apply Hnot. by right.
Qed.

Lemma PLATFORMS_NoDup : NoDup PLATFORMS.
Proof. compute_done. Qed.

Lemma lock_versions_sets p versions high (d : gmap string string) s w
    (d' : gmap string string) s' w' :
  lock_versions E p versions high (d, s) w = (Ok (d', s'), w') ->
  s <> EmptyString \/ (p = SYS_PLATFORM E /\ In (SYS_PYTHON_VERSION E) versions) ->
  s' <> EmptyString.
Proof.
  revert d s w. induction versions as [|v versions IH]; intros d s w H Hc.
  - simpl in H. unfold ret in H. simplify_eq. by destruct Hc as [?|[_ []]].
  - simpl in H. unfold bind in H.
    destruct (compile E p v high false w) as [[c|e] w1] eqn:Hcomp; [|done].
    apply compile_nonempty in Hcomp. apply IH in H; [done|].
    destruct (String.eqb s EmptyString) eqn:Hs0; cbn [andb].
    + apply String.eqb_eq in Hs0 as ->.
      destruct Hc as [?|[-> [Heq|Hin]]]; [done| |].
      * rewrite Heq, !String.eqb_refl. by left.
      * rewrite String.eqb_refl.
        destruct (String.eqb v (SYS_PYTHON_VERSION E)); [by left|by right].
    + apply String.eqb_neq in Hs0. by left.
Qed.

Lemma lock_platforms_sets platforms high (d : gmap string string) s w
    (d' : gmap string string) s' w' :
  lock_platforms E platforms high (d, s) w = (Ok (d', s'), w') ->
  s <> EmptyString \/
    (In (SYS_PLATFORM E) platforms /\ In (SYS_PYTHON_VERSION E) (PYTHON_VERSIONS E)) ->
  s' <> EmptyString.
Proof.
  revert d s w. induction platforms as [|p platforms IH]; intros d s w H Hc.
  - simpl in H. unfold ret in H. simplify_eq. by destruct Hc as [?|[[] _]].
  - simpl in H. unfold bind in H.
    destruct (lock_versions E p (PYTHON_VERSIONS E) high (d, s) w)
      as [[[d1 s1]|e] w1] eqn:Hlv; [|done].
    apply IH in H; [done|].
    destruct Hc as [Hs|[[Heq|Hin] Hv]].
    + left. eapply lock_versions_sets; eauto.
    + left. eapply lock_versions_sets; eauto.
    + destruct (decide (s1 = EmptyString)); [by right|by left].
Qed.

(** X3: in a supported environment with pairwise distinct versions, a
    [lock] that is given no fragment returns the fragment it has written
    under the key of the current platform and version, and that fragment
    is not empty. *)
Theorem lock_returns_stored high w r w' :
  In (SYS_PLATFORM E) PLATFORMS ->
  In (SYS_PYTHON_VERSION E) (PYTHON_VERSIONS E) ->
  NoDup (PYTHON_VERSIONS E) ->
  lock E high EmptyString w = (Ok r, w') ->
  exists lock_contents : gmap string string,
    fs w' !! get_lockfile high = Some (dumps E lock_contents +:+ nl) /\
    lock_contents !! key_sys E high = Some r /\
    r <> EmptyString.
Proof.
  intros Hp Hv Hnd. rewrite lock_unfold.
  destruct (lock_platforms E PLATFORMS high _ _) as [[[d s']|e] w1] eqn:Hl; [|done].
  intros [= <- <-]. cbn [fst snd fs].
  assert (s' <> EmptyString) as Hs'.
  { eapply lock_platforms_sets; [exact Hl|]. by right. }
  eapply lock_platforms_stored in Hl as [Hst _];
    [|apply incl_refl|done|apply PLATFORMS_NoDup|done|by intros []].
  exists d. split_and!; [apply lookup_insert_eq|by apply Hst|done].
Qed.

(** X4: once [lock] has returned, and provided the decoder reads back the
    document [lock] has just encoded, the store file holds that document
    and [get_compilation] finds for every supported platform and version
    the fragment [lock] has compiled for it, which is not empty; the world
    is left as it is. *)
Theorem lock_then_get_compilation high s w r w' :
  lock E high s w = (Ok r, w') ->
  loads E (dumps E (locked E high s w) +:+ nl)
  = Some (JObject (VStr <$> locked E high s w)) ->
  fs w' !! get_lockfile high = Some (dumps E (locked E high s w) +:+ nl) /\
  forall p v, In p PLATFORMS -> In v (PYTHON_VERSIONS E) ->
    exists fragment,
      locked E high s w !! get_compilation_key p v high = Some fragment /\
      fragment <> EmptyString /\
      get_compilation E p v high w' = (Ok (VStr fragment), w').
Proof.
  rewrite lock_unfold. unfold locked.
  destruct (lock_platforms E PLATFORMS high _ _) as [[[d s']|e] w1] eqn:Hl; [|done].
  intros [= <- <-]. cbn [fst snd fs]. intros Hloads.
  apply (lock_platforms_ok E (fun f => f <> EmptyString)) in Hl
    as (Hd & Hdom & _);
    [|intros p v w2 frag w3; apply compile_nonempty|apply map_Forall_empty].
  split; [apply lookup_insert_eq|].
  intros p v Hp Hv.
  assert (is_Some (d !! get_compilation_key p v high)) as [fragment Hf].
  { apply elem_of_dom. rewrite Hdom.
    apply elem_of_union_r, elem_of_list_to_set, list_elem_of_In, in_flat_map.
    exists p. split; [done|]. apply in_map_iff. by exists v. }
  exists fragment. split_and!; [done|by eapply Hd|].
  unfold get_compilation. cbn [fs]. rewrite lookup_insert_eq, Hloads.
  by rewrite lookup_fmap, Hf.
Qed.

End LockStore.


Section Engine.
Import Text Re Pat.

Lemma rev_app_app (u v bef : string) :
  String.rev_app v (String.rev_app u bef) = String.rev_app (u +:+ v) bef.
Proof.
  revert bef. induction u as [|c u IH]; intros bef; [done|].
  rewrite append_cons. cbn [String.rev_app]. apply IH.
Qed.

Lemma rep_greedy_inv {R} (p : ascii -> bool) (min n : nat) (bef aft : string)
    (k : string -> string -> option R) (x : R) :
  rep_greedy p min n bef aft k = Some x ->
  exists v a, aft = v +:+ a /\ all_chars p v = true /\ min <= n + String.length v /\
              k (String.rev_app v bef) a = Some x.
Proof.
  revert n bef. induction aft as [|c aft IH]; intros n bef; cbn [rep_greedy].
  - destruct (Nat.leb_spec min n) as [Hle|Hlt]; [|done]. intros Hk.
    exists EmptyString, EmptyString. split_and!; [done|done|cbn; lia|done].
  - assert (forall y, (if min <=? n then k bef (String c aft) else None) = Some y ->
              exists v a, String c aft = v +:+ a /\ all_chars p v = true /\
                          min <= n + String.length v /\
                          k (String.rev_app v bef) a = Some y) as Hstop.
    { intros y. destruct (Nat.leb_spec min n) as [Hle|Hlt]; [|done]. intros Hk.
      exists EmptyString, (String c aft). split_and!; [done|done|cbn; lia|done]. }
    destruct (p c) eqn:Hp; [|apply Hstop].
    destruct (rep_greedy p min (S n) (String c bef) aft k) as [y|] eqn:Hrec; [|apply Hstop].
    intros [= ->]. apply IH in Hrec as (v & a & -> & Hv & Hmin & Hk).
    exists (String c v), a. rewrite append_cons. cbn [all_chars String.length String.rev_app].
    rewrite Hp. split_and!; [done|done|lia|done].
Qed.

(** Whatever a pattern does, its continuation is entered at a cursor
    further on in the same text. *)
Lemma exec_inv {R} (r : regex) (bef aft : string) (caps : list (string * string))
    (k : string -> string -> list (string * string) -> option R) (x : R) :
  exec r bef aft caps k = Some x ->
  exists v a cs, aft = v +:+ a /\ k (String.rev_app v bef) a cs = Some x.
Proof.
  revert bef aft caps k. induction r as [p|min p|r1 IH1 r2 IH2|r1 IH1 r2 IH2|name r IH| | | |];
    intros bef aft caps k; cbn [exec].
  - destruct aft as [|c aft]; [done|]. destruct (p c); [|done]. intros H.
    by exists (String c EmptyString), aft, caps.
  - intros (v & a & -> & _ & _ & H)%rep_greedy_inv. by exists v, a, caps.
  - intros (v1 & a1 & cs1 & -> & (v2 & a2 & cs2 & -> & H)%IH2)%IH1.
    exists (v1 +:+ v2), a2, cs2. by rewrite append_assoc, <- rev_app_app.
  - destruct (exec r1 bef aft caps k) as [y|] eqn:H1.
    + intros [= ->]. by apply IH1 in H1.
    + apply IH2.
  - intros (v & a & cs & -> & H)%IH. by exists v, a, (cs ++ [(name, taken bef (String.rev_app v bef))]).
  - destruct (at_bol bef); [|done]. intros H. by exists EmptyString, aft, caps.
  - destruct (at_eol aft); [|done]. intros H. by exists EmptyString, aft, caps.
  - destruct (at_wordb bef aft); [|done]. intros H. by exists EmptyString, aft, caps.
  - intros H. by exists EmptyString, aft, caps.
Qed.

Lemma match_at_inv (r : regex) (bef aft : string) (m : Match) (b a : string) :
  match_at r bef aft = Some (m, (b, a)) ->
  aft = m_group m +:+ a /\ b = String.rev_app (m_group m) bef /\
  m_start m = String.length bef.
Proof.
  unfold match_at. intros (v & a' & cs & -> & [= <- <- <-])%exec_inv.
  cbn [m_group m_start]. by rewrite taken_rev_app.
Qed.

Lemma search_from_inv (r : regex) (bef aft : string) (m : Match) (c : string * string) :
  search_from r bef aft = Some (m, c) ->
  exists u aft', aft = u +:+ aft' /\ match_at r (String.rev_app u bef) aft' = Some (m, c).
Proof.
  revert bef. induction aft as [|x aft IH]; intros bef; cbn [search_from].
  - destruct (match_at r bef EmptyString) as [y|] eqn:Hm; [|done].
    intros [= ->]. by exists EmptyString, EmptyString.
  - destruct (match_at r bef (String x aft)) as [y|] eqn:Hm.
    + intros [= ->]. by exists EmptyString, (String x aft).
    + intros (u & aft' & -> & H)%IH. by exists (String x u), aft'.
Qed.

Lemma search_inv (r : regex) (s : string) (m : Match) :
  search r s = Some m ->
  exists before after b,
    s = before +:+ m_group m +:+ after /\
    match_at r (String.rev before) (m_group m +:+ after) = Some (m, (b, after)).
Proof.
  unfold search. destruct (search_from r EmptyString s) as [[m' [b a]]|] eqn:H; [|done].
  intros [= ->]. apply search_from_inv in H as (u & aft' & -> & H).
  pose proof H as (-> & _ & _)%match_at_inv. by exists u, a, b.
Qed.

Lemma prefix_append (v a : string) : String.prefix v (v +:+ a) = true.
Proof.
  induction v as [|c v IH]; [by destruct a|].
  rewrite append_cons. cbn [String.prefix]. destruct (ascii_dec c c); [done|done].
Qed.

Lemma contains_append (u v a : string) : contains v (u +:+ v +:+ a) = true.
Proof.
  induction u as [|c u IH].
  - rewrite append_nil_l. destruct (v +:+ a) eqn:Hva; cbn [contains];
      rewrite <- Hva, prefix_append; done.
  - rewrite append_cons. cbn [contains]. rewrite IH. apply orb_true_r.
Qed.

(** The text a search finds occurs in the text searched. *)
Lemma search_contains (r : regex) (s : string) (m : Match) :
  search r s = Some m -> contains (m_group m) s = true.
Proof.
  intros (before & after & b & -> & _)%search_inv. apply contains_append.
Qed.

End Engine.


Section DirectLines.
Import Text Re Pat.

Lemma chr_eqb_eq (a b : ascii) : chr_eqb a b = true -> a = b.
Proof. apply Ascii.eqb_eq. Qed.

Lemma name_regex_inv {R} (name bef aft : string) (caps : list (string * string))
    (k : string -> string -> list (string * string) -> option R) (x : R) :
  exec (name_regex name) bef aft caps k = Some x ->
  exists found a, aft = found +:+ a /\ name_matches name found = true /\
                  k (String.rev_app found bef) a caps = Some x.
Proof.
  revert bef aft. induction name as [|c name IH]; intros bef aft; cbn [name_regex exec].
  - intros H. by exists EmptyString, aft.
  - destruct (chr_eqb c "."%char) eqn:Hdot; cbn [exec];
      (destruct aft as [|t aft]; [done|]);
      match goal with |- (if ?g then _ else _) = _ -> _ => destruct g eqn:Hg; [|done] end;
      intros (found & a & -> & Hm & H)%IH;
      exists (String t found), a; rewrite append_cons;
      cbn [name_matches String.rev_app]; rewrite Hdot, Hg, Hm; done.
Qed.

Lemma lit_inv {R} (s bef aft : string) (caps : list (string * string))
    (k : string -> string -> list (string * string) -> option R) (x : R) :
  exec (lit s) bef aft caps k = Some x ->
  exists a, aft = s +:+ a /\ k (String.rev_app s bef) a caps = Some x.
Proof.
  revert bef aft. induction s as [|c s IH]; intros bef aft; cbn [lit exec].
  - intros H. by exists aft.
  - destruct aft as [|t aft]; [done|].
    destruct (chr_eqb c t) eqn:Hc; [|done]. apply chr_eqb_eq in Hc as <-.
    intros (a & -> & H)%IH. by exists a.
Qed.

Lemma last_char_cons (c : ascii) (u : string) : is_Some (last_char (String c u)).
Proof.
  revert c. induction u as [|d u IH]; intros c; [by eexists|]. apply (IH d).
Qed.

Lemma at_bol_rev_app (u acc : string) :
  at_bol (String.rev_app u acc)
  = match last_char u with Some c => chr_eqb c LF | None => at_bol acc end.
Proof.
  revert acc. induction u as [|c u IH]; intros acc; [done|].
  cbn [String.rev_app]. rewrite IH. destruct u as [|d u]; [done|].
  destruct (last_char_cons d u) as [y Hy].
  change (last_char (String c (String d u))) with (last_char (String d u)).
  by rewrite Hy.
Qed.

Lemma at_bol_rev (u : string) :
  at_bol (String.rev u) = true -> u = EmptyString \/ last_char u = Some LF.
Proof.
  unfold String.rev. rewrite at_bol_rev_app. destruct u as [|c u]; [by left|].
  destruct (last_char_cons c u) as [y ->]. intros ->%chr_eqb_eq. by right.
Qed.

Lemma name_matches_lowercase (name found : string) :
  all_chars not_full_stop name = true -> name_matches name found = true ->
  lowercase found = lowercase name.
Proof.
  revert found. induction name as [|c name IH]; intros [|t found]; try done.
  cbn [all_chars name_matches lowercase]. unfold not_full_stop at 1.
  intros [Hc Hn]%andb_prop [Ht Hm]%andb_prop.
  apply negb_true_iff in Hc. rewrite Hc in Ht. apply chr_eqb_eq in Ht as ->.
  f_equal. by apply IH.
Qed.

Lemma direct_pat_match_inv (name bef aft : string) (m : Match) (b a : string) :
  match_at (direct_pat name) bef aft = Some (m, (b, a)) ->
  at_bol bef = true /\ at_eol a = true /\
  exists found ver,
    m_group m = found +:+ "==" +:+ ver /\
    m_groups m = [("name", found); ("ver", ver)] /\
    name_matches name found = true /\
    ver <> EmptyString /\ all_chars not_newline ver = true.
Proof.
  unfold match_at, direct_pat, seq. cbn [foldr exec].
  destruct (at_bol bef) eqn:Hbol; [|done].
  intros (found & a1 & -> & Hnm & H)%name_regex_inv.
  apply lit_inv in H as (a2 & -> & H). cbn [exec] in H.
  apply rep_greedy_inv in H as (ver & a3 & -> & Hver & Hmin & H).
  destruct (at_eol a3) eqn:Heol; [|done]. injection H as <- <- <-.
  split; [done|]. split; [done|]. exists found, ver. cbn [m_group m_groups].
  change (String "="%char (String "="%char (String.rev_app found bef)))
    with (String.rev_app "==" (String.rev_app found bef)).
  rewrite !taken_rev_app, !rev_app_app, taken_rev_app, ?append_assoc.
  split_and!; [done|done|done| |done].
  intros ->. cbn in Hmin. lia.
Qed.

(** X13: the line [check_compilation] collects for a direct dependency is
    a whole line of the stored fragment, of the form [found==version] with
    a version that is not empty; [found] has the characters of the
    dependency's name, ignoring case, except where the name has a full
    stop, and is the name itself, ignoring case, when the name has none. *)
Theorem collected_line_has_the_name (name old : string) (m : Match) :
  search (direct_pat name) old = Some m ->
  exists before found ver after,
    old = before +:+ m_group m +:+ after /\
    (before = EmptyString \/ last_char before = Some LF) /\
    at_eol after = true /\
    m_group m = found +:+ "==" +:+ ver /\
    name_matches name found = true /\
    (all_chars not_full_stop name = true -> lowercase found = lowercase name) /\
    ver <> EmptyString /\ all_chars not_newline ver = true.
Proof.
  intros (before & after & b & -> & H)%search_inv.
  apply direct_pat_match_inv
    in H as (Hbol & Heol & found & ver & Hg & _ & Hnm & Hne & Hnl).
  exists before, found, ver, after.
  split_and!; [done|by apply at_bol_rev|done|done|done| |done|done].
  intros Hdots. by apply name_matches_lowercase.
Qed.

Lemma collect_old_directs_contained old ds acc l :
  collect_old_directs old ds acc = Some l ->
  (forall x, In x acc -> contains x old = true) ->
  forall x, In x l -> contains x old = true.
Proof.
  revert acc. induction ds as [|d ds IH]; intros acc; cbn [collect_old_directs].
  - intros [= ->]. auto.
  - destruct (search (direct_pat (group d "name")) old) as [m|] eqn:Hm; [|done].
    intros H Hacc. apply (IH _ H). intros x [Hx|[<-|[]]]%in_app_iff; [auto|].
    by apply search_contains in Hm.
Qed.

End DirectLines.

Section SameFragment.
Import Text Re Pat.
Context (E : Env).

(** X12: when the fresh full fragment is the stored fragment itself, the
    comparison of the versions never relocks: once the stored fragment has
    passed the checks of the resolver version, of the submodules and of the
    direct dependencies' names, it is returned, [lock] is not called and
    no file changes. *)
Theorem same_full_fragment_is_compatible high w old old_uv uv w1 directs w2 w3 :
  get_compilation E (SYS_PLATFORM E) (SYS_PYTHON_VERSION E) high w = (Ok (VStr old), w) ->
  search UV_PAT old = Some old_uv ->
  get_uv_version E w = (Ok uv, w1) ->
  group old_uv "version" = uv ->
  compile E (SYS_PLATFORM E) (SYS_PYTHON_VERSION E) high true w1 = (Ok directs, w2) ->
  submodules_differ old directs = false ->
  (forall d, In d (finditer DEP_PAT directs) ->
     is_Some (search (direct_pat (group d "name")) old)) ->
  compile E (SYS_PLATFORM E) (SYS_PYTHON_VERSION E) high false w2 = (Ok old, w3) ->
  exists w',
    check_compilation E high w = (Ok old, w') /\
    fs w' = fs w /\
    sites (new_events w w') = [Old_compilation_compatible] /\
    locks (new_events w w') = [].
Proof.
  intros Hget Huv Hprobe Hver Hdir Hno Hnames Hsys.
  destruct (check_compilation_reaches_submodules E _ _ _ _ _ _ _ _
              Hget Huv Hprobe Hver Hdir) as (-> & Hf2 & evs2 & Ht2 & Hs2 & Hl2 & Hw2).
  unfold check_submodules. unfold submodules_differ in Hno.
  rewrite zip_nonstrict in *. rewrite Hno. unfold check_directs.
  destruct (collect_old_directs_Some old _ [] Hnames) as (old_directs & Hc & _).
  cbn [app] in Hc. rewrite Hc. unfold bind. rewrite Hsys. unfold check_versions.
  assert (existsb (fun d => negb (contains d old)) old_directs = false) as ->.
  { apply not_true_is_false. rewrite existsb_exists. intros (x & Hx & Hcx).
    rewrite (collect_old_directs_contained _ _ _ _ Hc) in Hcx; [done|by intros ? []|done]. }
  destruct (quiet_trace _ w2 (quiet_compile E (SYS_PLATFORM E)
              (SYS_PYTHON_VERSION E) high false))
    as (evs3 & Ht3 & Hf3 & Hs3 & Hl3 & Hw3).
  rewrite Hsys in Ht3, Hf3. cbn [fst snd] in Ht3, Hf3.
  eexists. split; [reflexivity|]. cbn [fs].
  erewrite new_events_app;
    [|cbn [trace]; rewrite Ht3, Ht2, <- !app_assoc; reflexivity].
  rewrite !sites_app, !locks_app, Hs2, Hs3, Hl2, Hl3.
  split_and!; [congruence|done|done].
Qed.

End SameFragment.

Section Pins.
Import Text Re Pat.

(** X14: the pin line [compile] writes for a submodule path
    [submodules/name] and a revision, both without white space and not
    empty, is read back by [SUB_PAT] at the start of a line with exactly
    that name and that revision as its groups. *)
Theorem pin_line_round_trip (bef name rev rest : string) :
  at_bol bef = true ->
  name <> EmptyString -> all_chars non_space name = true ->
  rev <> EmptyString -> all_chars non_space rev = true ->
  exists m c,
    match_at SUB_PAT bef (pin_line ("submodules/" +:+ name, rev) +:+ nl +:+ rest)
    = Some (m, c) /\
    m_group m = pin_line ("submodules/" +:+ name, rev) /\
    groups m = [name; rev].
Proof.
  intros Hbol Hn Hnc Hr Hrc.
  assert (pin_line ("submodules/" +:+ name, rev) = "# submodules/" +:+ name +:+ " " +:+ rev)
    as Hpin.
  { unfold pin_line. cbn [fst snd]. by rewrite !append_assoc. }
  rewrite Hpin, !append_assoc.
  change ("# submodules/" +:+ name +:+ " " +:+ rev +:+ nl +:+ rest)
    with (String "#" (String " " (String "s" (String "u" (String "b" (String "m" (String "o" (String "d" (String "u" (String "l" (String "e" (String "s" (String "/" (name +:+ String " " (rev +:+ String LF rest))))))))))))))).
  eexists _, _. split.
  - unfold match_at, SUB_PAT. cbn [seq foldr lit exec]. rewrite Hbol. re_steps.
    erewrite rep_greedy_run; [reflexivity|done|done| |].
    + destruct name; [done|]. cbn. lia.
    + re_steps. erewrite rep_greedy_run; [reflexivity|done|done| |].
      * destruct rev; [done|]. cbn. lia.
      * re_steps. reflexivity.
  - cbn [m_group groups m_groups map snd app].
    change (String " " (String.rev_app name ?b))
      with (String.rev_app " " (String.rev_app name b)).
    change (String "/" (String "s" (String "e" (String "l" (String "u" (String "d"
             (String "o" (String "m" (String "b" (String "u" (String "s"
             (String " " (String "#" bef)))))))))))))
      with (String.rev_app "# submodules/" bef).
    rewrite !taken_rev_app, !rev_app_app, taken_rev_app, ?append_assoc. done.
Qed.

End Pins.


Section Probe.
Import Text Re Pat.
Context (E : Env).

Lemma split_head (sep : ascii) (s : string) :
  exists h t,
    split sep s = h :: t /\
    all_chars (fun c => negb (chr_eqb c sep)) h = true /\
    ((t = [] /\ s = h) \/ exists s', s = h +:+ String sep s' /\ t = split sep s').
Proof.
  induction s as [|c s IH]; cbn [split].
  - exists EmptyString, []. split_and!; [done|done|by left].
  - destruct IH as (h & t & Hs & Hh & Hcase).
    destruct (chr_eqb c sep) eqn:Hc.
    + exists EmptyString, (split sep s). split_and!; [done|done|].
      right. exists s. apply chr_eqb_eq in Hc as ->. by rewrite append_nil_l.
    + rewrite Hs. exists (String c h), t. cbn [all_chars]. rewrite Hc, Hh.
      split_and!; [done|done|].
      destruct Hcase as [[-> ->]|(s' & -> & ->)]; [by left|].
      right. exists s'. by rewrite append_cons.
Qed.

(** X9: what [get_uv_version] gives.  It raises the error stream when the
    probe exits with a code other than zero.  Otherwise it returns the
    second of the pieces the stripped output falls into at its spaces:
    the text between the first space and the second one (or the end),
    which has no space and is empty when two spaces follow each other;
    it raises [IndexError] exactly when the stripped output has no space. *)
Theorem get_uv_version_second_word (w : World) :
  let result := proc E (clock w) UvVersion in
  let out := strip (stdout result) in
  match fst (get_uv_version E w) with
  | Ok version =>
      returncode result = 0%Z /\
      all_chars not_blank version = true /\
      exists first rest,
        all_chars not_blank first = true /\
        out = first +:+ " " +:+ version +:+ rest /\
        (rest = EmptyString \/ exists r, rest = String " " r)
  | Raise e =>
      (returncode result <> 0%Z /\ e = RuntimeError (stderr result)) \/
      (returncode result = 0%Z /\ e = IndexError /\ all_chars not_blank out = true)
  end.
Proof.
  cbv zeta. unfold get_uv_version, bind, run. cbn [andb fst snd].
  destruct (returncode (proc E (clock w) UvVersion) =? 0)%Z eqn:Hrc; cbn [negb].
  2:{ left. by apply Z.eqb_neq in Hrc. }
  apply Z.eqb_eq in Hrc.
  destruct (split_head " " (strip (stdout (proc E (clock w) UvVersion))))
    as (first & t & -> & Hfirst & Hcase).
  destruct Hcase as [[-> Hout]|(s' & Hout & ->)].
  - right. cbn [fst raise]. by rewrite Hout.
  - destruct (split_head " " s') as (version & t & -> & Hver & Hcase).
    cbn [fst ret]. split_and!; [done|done|].
    destruct Hcase as [[-> ->]|(s'' & -> & _)].
    + exists first, EmptyString. rewrite append_nil_r. split_and!; [done|done|by left].
    + exists first, (String " " s''). split_and!; [done|done|right; by eexists].
Qed.

End Probe.


Section Commands.
Import Text Re Pat.
Context (E : Env).

Lemma runs_within_ret {A} (a : A) : runs_within (ret a) [].
Proof. intros w. exists []. cbn. by rewrite app_nil_r. Qed.

Lemma runs_within_bind {A B} (m : M A) (k : A -> M B) (c1 c2 : list command) :
  runs_within m c1 -> (forall a, runs_within (k a) c2) ->
  runs_within (bind m k) (c1 ++ c2).
Proof.
  intros Hm Hk w. destruct (Hm w) as (evs1 & Ht1 & H1). unfold bind.
  destruct (m w) as [[a|e] w1]; cbn [fst snd] in *.
  - destruct (Hk a w1) as (evs2 & Ht2 & H2). exists (evs1 ++ evs2).
    rewrite Ht2, Ht1, app_assoc, runs_app, map_app, H1. split; [done|].
    destruct (fst (k a w1)); [by rewrite H2|by apply prefix_app].
  - exists evs1. split; [done|]. by apply prefix_app_r.
Qed.

Lemma runs_within_run_checked (c : command) : runs_within (run E true c) [c].
Proof.
  intros w. exists [EvRun c (proc E (clock w) c)]. unfold run.
  destruct (true && negb _); cbn; done.
Qed.

Lemma runs_within_run_or_raise {A} (c : command) (k : CompletedProcess -> M A)
    (cmds : list command) :
  (forall res, runs_within (k res) cmds) ->
  runs_within (bind (run E false c) (fun result =>
                 if negb (returncode result =? 0)%Z
                 then raise (RuntimeError (stderr result))
                 else k result)) (c :: cmds).
Proof.
  intros Hk w. unfold bind, run. cbn [andb fst snd].
  set (res := proc E (clock w) c). set (w1 := mkWorld _ _ _).
  destruct (negb (returncode res =? 0)%Z).
  - exists [EvRun c res]. cbn. split; [done|]. by apply (prefix_app_r [c] [c] cmds).
  - destruct (Hk res w1) as (evs & Ht & H). exists (EvRun c res :: evs).
    rewrite Ht. subst w1. cbn [trace]. rewrite <- app_assoc. split; [done|].
    change (runs (EvRun c res :: evs)) with ((c, res) :: runs evs).
    cbn [map fst]. revert H.
    destruct (fst (k res _)); intros H; [by rewrite H|by apply prefix_cons].
Qed.

Lemma runs_within_instant : runs_within instant [].
Proof. intros w. exists []. cbn. by rewrite app_nil_r. Qed.

Lemma runs_within_shlex_split (line : string) : runs_within (shlex_split line) [].
Proof.
  unfold shlex_split. destruct (Shlex.splits line); [apply runs_within_ret|].
  intros w. exists []. cbn. by rewrite app_nil_r.
Qed.

Lemma runs_within_get_uv_version : runs_within (get_uv_version E) [UvVersion].
Proof.
  unfold get_uv_version. apply runs_within_run_or_raise. intros res w.
  exists []. rewrite app_nil_r.
  destruct (split _ _) as [|a [|v l]]; cbn; split; done.
Qed.

Lemma runs_within_submodule_revs subs submodules :
  runs_within (submodule_revs E subs submodules)
    (map (fun sub => GitRevParse (m_group sub)) subs).
Proof.
  revert submodules. induction subs as [|sub subs IH]; intros submodules.
  - apply runs_within_ret.
  - cbn [submodule_revs map].
    apply (runs_within_bind _ _ []); [apply runs_within_shlex_split|]. intros _.
    apply (runs_within_bind _ _ [GitRevParse (m_group sub)]);
      [apply runs_within_run_checked|]. intros r. apply IH.
Qed.

Lemma runs_within_compile p v h nd :
  runs_within (compile E p v h nd) (compile_commands E p v h nd).
Proof.
  unfold compile, compile_commands.
  apply (runs_within_bind _ _ []); [apply runs_within_instant|]. intros t.
  apply (runs_within_bind _ _ []); [apply runs_within_shlex_split|]. intros _.
  apply runs_within_run_or_raise. intros res.
  apply runs_within_bind; [apply runs_within_submodule_revs|]. intros submodules.
  rewrite <- (app_nil_r [UvVersion]).
  apply runs_within_bind; [apply runs_within_get_uv_version|]. intros uv.
  apply runs_within_ret.
Qed.

Lemma runs_within_lock_versions p versions high st :
  runs_within (lock_versions E p versions high st)
    (flat_map (fun v => compile_commands E p v high false) versions).
Proof.
  revert st. induction versions as [|v versions IH]; intros [d s].
  - apply runs_within_ret.
  - cbn [lock_versions flat_map].
    apply runs_within_bind; [apply runs_within_compile|]. intros c. apply IH.
Qed.

Lemma runs_within_lock_platforms platforms high st :
  runs_within (lock_platforms E platforms high st)
    (flat_map
       (fun p => flat_map (fun v => compile_commands E p v high false) (PYTHON_VERSIONS E))
       platforms).
Proof.
  revert st. induction platforms as [|p platforms IH]; intros st.
  - apply runs_within_ret.
  - cbn [lock_platforms flat_map].
    apply runs_within_bind; [apply runs_within_lock_versions|]. intros st'. apply IH.
Qed.

Lemma runs_within_lock high s : runs_within (lock E high s) (lock_commands E high).
Proof.
  intros w. rewrite lock_unfold. set (w1 := mkWorld _ _ _).
  destruct (runs_within_lock_platforms PLATFORMS high (∅, s) w1) as (evs & Ht & H).
  destruct (lock_platforms E PLATFORMS high (∅, s) w1) as [[st|e] w2];
    cbn [fst snd trace] in *.
  - exists (EvLock high s :: evs ++ [EvWrite (get_lockfile high) (dumps E (fst st) +:+ nl)]).
    rewrite Ht. subst w1. cbn [trace]. rewrite <- !app_assoc. split; [done|].
    change (runs (EvLock high s :: ?l)) with (runs l). rewrite runs_app.
    change (runs [EvWrite _ _]) with (@nil (command * CompletedProcess)).
    by rewrite app_nil_r.
  - exists (EvLock high s :: evs). rewrite Ht. subst w1. cbn [trace].
    rewrite <- !app_assoc. done.
Qed.

Lemma compile_commands_length p v h nd :
  length (compile_commands E p v h nd)
  = 2 + length (finditer SUBMODULE_REF (DEV_text E)).
Proof.
  unfold compile_commands. cbn [length]. rewrite length_app, length_map. cbn. lia.
Qed.

Lemma flat_map_length_const {A B} (f : A -> list B) (l : list A) (n : nat) :
  (forall x, length (f x) = n) -> length (flat_map f l) = length l * n.
Proof.
  intros Hf. induction l as [|x l IH]; [done|].
  cbn [flat_map length]. rewrite length_app, Hf, IH. lia.
Qed.


(** X8: a call of [lock] runs the command lines of [compile] for every
    supported platform and Python version, platform by platform, whatever
    fragment it is given: a fragment supplied for the current pair spares
    no subprocess.  Without a failure that is three times the number of
    versions times two more than the number of submodule references. *)
Theorem lock_runs_every_command high s w :
  let res := lock E high s w in
  let cmds := map fst (runs (new_events w (snd res))) in
  match fst res with
  | Ok _ => cmds = lock_commands E high
  | Raise _ => cmds `prefix_of` lock_commands E high
  end /\
  length (lock_commands E high)
  = 3 * length (PYTHON_VERSIONS E) * (2 + length (finditer SUBMODULE_REF (DEV_text E))).
Proof.
  cbv zeta. destruct (runs_within_lock high s w) as (evs & Ht & H).
  rewrite (new_events_app _ _ _ Ht). split; [done|].
  unfold lock_commands.
  rewrite (flat_map_length_const _ _
             (length (PYTHON_VERSIONS E)
              * (2 + length (finditer SUBMODULE_REF (DEV_text E))))).
  - cbn [PLATFORMS length]. lia.
  - intros p. apply flat_map_length_const. intros v. apply compile_commands_length.
Qed.

End Commands.


Section Submodules.
Import Text Re Pat.
Context (E : Env).

Lemma dict_set_keys k v d x :
  In x (map fst (dict_set k v d)) <-> x = k \/ In x (map fst d).
Proof.
  induction d as [|[k' v'] d IH]; cbn [dict_set map fst In].
  - intuition.
  - destruct (String.eqb_spec k' k) as [->|Hne]; cbn [map fst In]; [intuition|].
    rewrite IH. intuition.
Qed.

Lemma dict_set_NoDup k v d :
  List.NoDup (map fst d) -> List.NoDup (map fst (dict_set k v d)).
Proof.
  induction d as [|[k' v'] d IH]; cbn [dict_set map fst].
  - intros _. constructor; [intros []|constructor].
  - intros [Hk' Hd]%List.NoDup_cons_iff.
    destruct (String.eqb_spec k' k) as [->|Hne]; cbn [map fst].
    + by constructor.
    + constructor; [|auto]. rewrite dict_set_keys. intros [->|?]; done.
Qed.

Lemma dict_set_values k v d x y :
  In (x, y) (dict_set k v d) -> (x = k /\ y = v) \/ In (x, y) d.
Proof.
  induction d as [|[k' v'] d IH]; cbn [dict_set In].
  - intros [[= <- <-]|[]]. by left.
  - destruct (String.eqb_spec k' k) as [->|Hne]; cbn [In].
    + intros [[= <- <-]|?]; auto.
    + intros [?|?]; [auto|]. destruct IH; auto.
Qed.

Lemma submodule_revs_dict subs submodules w submodules' w' :
  submodule_revs E subs submodules w = (Ok submodules', w') ->
  List.NoDup (map fst submodules) ->
  List.NoDup (map fst submodules') /\
  (forall k, In k (map fst submodules') <->
             In k (map fst submodules) \/ In k (map m_group subs)) /\
  forall k v, In (k, v) submodules' ->
    In (k, v) submodules \/
    exists res, In (GitRevParse k, res) (runs (new_events w w')) /\
                returncode res = 0%Z /\ v = strip (stdout res).
Proof.
  revert submodules w. induction subs as [|sub subs IH]; intros submodules w H Hd.
  - cbn [submodule_revs] in H. unfold ret in H. simplify_eq.
    split_and!; [done|cbn; intuition|auto].
  - rewrite submodule_revs_cons in H. cbv zeta in H.
    destruct (quiet_submodule_revs E subs
                (dict_set (m_group sub)
                   (strip (stdout (proc E (clock w) (GitRevParse (m_group sub)))))
                   submodules) (tick E (GitRevParse (m_group sub)) w))
      as (evs & Ht & _).
    destruct (negb (Shlex.splits _)); [done|].
    destruct (returncode (proc E (clock w) (GitRevParse (m_group sub))) =? 0)%Z eqn:Hrc;
      cbn [negb] in H; [|done].
    rewrite H in Ht. cbn [snd tick trace] in Ht. rewrite <- app_assoc in Ht.
    rewrite (new_events_app _ _ _ Ht).
    pose proof H as (Hnd & Hkeys & Hvals)%IH; [|by apply dict_set_NoDup].
    split_and!; [done| |].
    + intros k. rewrite Hkeys, dict_set_keys. cbn [map In]. intuition.
    + intros k v [Hin|(res & Hin & Hok & ->)]%Hvals.
      * apply dict_set_values in Hin as [[-> ->]|Hin]; [|by left].
        right. eexists. split_and!; [by left|by apply Z.eqb_eq|done].
      * right. exists res. split_and!; [|done|done].
        right. erewrite new_events_app in Hin; [done|].
        rewrite Ht. cbn [tick trace]. by rewrite <- app_assoc.
Qed.

(** X10: the pins [compile] collects.  The dictionary it builds from the
    submodule references has one entry for every path referred to, however
    often the path occurs, and no other; the revision of an entry is the
    stripped output of a [git rev-parse] of that path which exited with
    zero. *)
Theorem submodule_revs_one_pin_per_path subs w submodules w' :
  submodule_revs E subs [] w = (Ok submodules, w') ->
  List.NoDup (map fst submodules) /\
  (forall path, In path (map fst submodules) <-> In path (map m_group subs)) /\
  forall path rev, In (path, rev) submodules ->
    exists res, In (GitRevParse path, res) (runs (new_events w w')) /\
                returncode res = 0%Z /\ rev = strip (stdout res).
Proof.
  intros (Hnd & Hkeys & Hvals)%submodule_revs_dict; [|constructor].
  split_and!; [done| |].
  - intros path. rewrite Hkeys. cbn. intuition.
  - intros path rev [[]|?]%Hvals. done.
Qed.

End Submodules.


Section Footprint.
Import Text Re Pat.
Context (E : Env).

Lemma confined_quiet high {A} (m : M A) : quiet m -> confined high m.
Proof.
  intros Hq w. destruct (Hq w) as (evs & Ht & Hf & _ & Hr & _).
  apply only_runs in Hr as (Hs & Hl & Hw). exists evs. rewrite Hs, Hl, Hw, Hf.
  split_and!; [done|cbn; lia|by left|constructor|done|].
  by destruct (fst (m w)).
Qed.

Lemma confined_bind_quiet high {A B} (m : M A) (k : A -> M B) :
  quiet m -> (forall a, confined high (k a)) -> confined high (bind m k).
Proof.
  intros Hq Hk w. destruct (Hq w) as (evs1 & Ht1 & Hf1 & _ & Hr1 & _).
  apply only_runs in Hr1 as (Hs1 & Hl1 & Hw1). unfold bind.
  destruct (m w) as [[a|e] w1]; cbn [fst snd] in *.
  - destruct (Hk a w1) as (evs2 & Ht2 & Hs2 & Hl2 & Hw2 & Hp2 & Hr2).
    exists (evs1 ++ evs2).
    rewrite Ht2, Ht1, app_assoc, sites_app, locks_app, writes_app, Hs1, Hl1, Hw1.
    cbn [app]. split_and!; [done|done|done|done|by rewrite <- Hf1|].
    destruct (fst (k a w1)); [done|]. by rewrite <- Hf1.
  - exists evs1. rewrite Hs1, Hl1, Hw1.
    split_and!; [done|cbn; lia|by left|constructor|by rewrite Hf1|done|done].
Qed.

Lemma confined_returning_lock high s sc :
  confined high (returning s (lock E high sc)).
Proof.
  intros w. unfold returning, bind, emit. cbn [fst snd].
  set (w1 := mkWorld _ _ _).
  destruct (lock E high sc w1) as [[r|e] w'] eqn:H; cbn [fst snd].
  - apply (lock_ok E (fun _ => True)) in H
      as (d & evs & _ & _ & Hfs & Ht & Hr & _); [|done].
    apply only_runs in Hr as (Hs & Hl & Hw).
    exists (EvReturn s :: EvLock high sc :: evs
            ++ [EvWrite (get_lockfile high) (dumps E d +:+ nl)]).
    rewrite Ht, Hfs. subst w1. cbn [trace fs]. rewrite <- !app_assoc.
    change (sites (EvReturn s :: EvLock high sc :: ?l)) with (s :: sites l).
    change (locks (EvReturn s :: EvLock high sc :: ?l)) with ((high, sc) :: locks l).
    change (writes (EvReturn s :: EvLock high sc :: ?l)) with (writes l).
    rewrite sites_app, locks_app, writes_app, Hs, Hl, Hw.
    split_and!; [done|cbn; lia|right; by exists sc|by repeat constructor| |done].
    intros path Hp. by rewrite lookup_insert_ne.
  - apply lock_raise in H as (evs & Hfs & Ht & Hr & _).
    apply only_runs in Hr as (Hs & Hl & Hw).
    exists (EvReturn s :: EvLock high sc :: evs).
    rewrite Ht, Hfs. subst w1. cbn [trace fs]. rewrite <- !app_assoc.
    change (sites (EvReturn s :: EvLock high sc :: ?l)) with (s :: sites l).
    change (locks (EvReturn s :: EvLock high sc :: ?l)) with ((high, sc) :: locks l).
    change (writes (EvReturn s :: EvLock high sc :: ?l)) with (writes l).
    rewrite Hs, Hl, Hw.
    split_and!; [done|cbn; lia|right; by exists sc|constructor|done|done|done].
Qed.

Lemma confined_returning_ret high s {A} (a : A) : confined high (returning s (ret a)).
Proof.
  intros w. exists [EvReturn s]. cbn.
  split_and!; [done|lia|by left|constructor|done|done].
Qed.

Lemma confined_raise high {A} (e : exn) : confined high (@raise A e).
Proof.
  intros w. exists []. cbn. rewrite app_nil_r.
  split_and!; [done|lia|by left|constructor|done|done|done].
Qed.

Lemma get_compilation_pure p v high w : snd (get_compilation E p v high w) = w.
Proof.
  unfold get_compilation. destruct (fs w !! get_lockfile high) as [text|]; [|done].
  by destruct (loads E text) as [[contents|]|].
Qed.

Lemma confined_bind_pure high {A B} (m : M A) (k : A -> M B) :
  (forall w, snd (m w) = w) -> (forall a, confined high (k a)) ->
  confined high (bind m k).
Proof.
  intros Hm Hk w. unfold bind. specialize (Hm w).
  destruct (m w) as [[a|e] w1]; cbn [snd] in Hm; subst w1.
  - apply Hk.
  - apply (confined_raise high e w).
Qed.

Lemma confined_check_compilation high : confined high (check_compilation E high).
Proof.
  unfold check_compilation.
  apply confined_bind_pure; [intros w; apply get_compilation_pure|]. intros old.
  destruct (negb (truthy old)); [apply confined_returning_lock|].
  destruct old as [old|b]; [|apply confined_raise].
  destruct (search UV_PAT old) as [old_uv|]; [|apply confined_returning_lock].
  apply confined_bind_quiet; [apply quiet_get_uv_version|]. intros uv.
  destruct (negb _); [apply confined_returning_lock|].
  apply confined_bind_quiet; [apply quiet_compile|]. intros directs.
  destruct (zip_ _ _ _) as [subs|e]; [|apply confined_returning_lock].
  destruct (existsb _ subs); [apply confined_returning_lock|].
  destruct (collect_old_directs _ _ _) as [old_directs|];
    [|apply confined_returning_lock].
  apply confined_bind_quiet; [apply quiet_compile|]. intros sys_compilation.
  destruct (existsb _ old_directs);
    [apply confined_returning_lock|apply confined_returning_ret].
Qed.

(** X11: what a call of [check_compilation] keeps to, whatever the store
    and the subprocesses say.  It leaves through at most one of its
    [return]s and calls [lock] at most once, for its own [high]; no file
    but its own store file changes, so the store of the other [high] is
    as it was; when it returns it has written the store once for a call of
    [lock] and not at all otherwise; when it raises, no file has
    changed. *)
Theorem check_compilation_footprint high w :
  let res := check_compilation E high w in
  let evs := new_events w (snd res) in
  length (sites evs) <= 1 /\
  (locks evs = [] \/ exists s, locks evs = [(high, s)]) /\
  Forall (fun pd => fst pd = get_lockfile high) (writes evs) /\
  (forall path, path <> get_lockfile high -> fs (snd res) !! path = fs w !! path) /\
  fs (snd res) !! get_lockfile (negb high) = fs w !! get_lockfile (negb high) /\
  match fst res with
  | Ok _ => length (writes evs) = length (locks evs)
  | Raise _ => writes evs = [] /\ fs (snd res) = fs w
  end.
Proof.
  cbv zeta. destruct (confined_check_compilation high w)
    as (evs & Ht & Hs & Hl & Hw & Hp & Hr).
  rewrite (new_events_app _ _ _ Ht).
  split_and!; [done|done|done|done| |done].
  apply Hp. by destruct high.
Qed.

End Footprint.


Section FirstGuard.
Import Text Re Pat.
Context (E : Env).

(** X5: a store that has no fragment for the current pair makes
    [check_compilation] relock from nothing: when the store file is not
    there, and when it decodes to an object that has no entry under the
    current key or one whose value is false in a condition (the empty
    string, [null], zero, an empty list), the check is the call of [lock]
    without a fragment behind the first [return]; nothing is run before
    it. *)
Theorem missing_entry_relocks high w :
  (fs w !! get_lockfile high = None \/
   exists text contents,
     fs w !! get_lockfile high = Some text /\
     loads E text = Some (JObject contents) /\
     forall v, contents !! key_sys E high = Some v -> truthy v = false) ->
  let res := check_compilation E high w in
  res = returning Old_compilation_missing (lock E high EmptyString) w /\
  exists evs,
    new_events w (snd res) = EvReturn Old_compilation_missing :: EvLock high EmptyString :: evs /\
    sites evs = [] /\ locks evs = [].
Proof.
  intros Hcase. cbv zeta.
  assert (check_compilation E high w
          = returning Old_compilation_missing (lock E high EmptyString) w) as ->.
  { unfold check_compilation, bind at 1, get_compilation.
    destruct Hcase as [->|(text & contents & -> & -> & Hv)]; [done|].
    fold (key_sys E high).
    destruct (contents !! key_sys E high) as [v|] eqn:Hk; [|done].
    change (default (VStr EmptyString) (Some v)) with v.
    by rewrite (Hv v eq_refl). }
  split; [done|].
  destruct (returning_lock_trace E Old_compilation_missing high EmptyString w)
    as (evs & Ht & Hs & Hl).
  exists evs. by rewrite (new_events_app _ _ _ Ht).
Qed.

(** X6: a store of another shape stops the check with a type error and
    nothing else happens.  A store file that decodes to something that is
    not an object makes the check raise [AttributeError]; an entry under
    the current key that is not a string and is true in a condition makes
    it raise [TypeError].  No subprocess is run, [lock] is not called and
    no file changes. *)
Theorem mistyped_store_raises high w text e :
  fs w !! get_lockfile high = Some text ->
  (loads E text = Some JOther /\ e = AttributeError) \/
  (exists contents,
     loads E text = Some (JObject contents) /\
     contents !! key_sys E high = Some (VOther true) /\ e = TypeError) ->
  check_compilation E high w = (Raise e, w).
Proof.
  intros Hfile Hcase. unfold check_compilation, bind, get_compilation. rewrite Hfile.
  destruct Hcase as [[-> ->]|(contents & -> & Hk & ->)]; [done|].
  fold (key_sys E high). by rewrite Hk.
Qed.

End FirstGuard.


Section DependencyNames.
Import Text Re Pat.

Lemma finditer_from_at (fuel : nat) (r : regex) (bef aft : string) (m : Match) :
  In m (finditer_from fuel r bef aft) ->
  exists bef' aft' c,
    String.rev_app bef' aft' = String.rev_app bef aft /\
    match_at r bef' aft' = Some (m, c).
Proof.
  revert bef aft. induction fuel as [|fuel IH]; intros bef aft; cbn [finditer_from]; [done|].
  destruct (search_from r bef aft) as [[m' [b a]]|] eqn:Hs; [|done].
  apply search_from_inv in Hs as (u & aft' & -> & Hm).
  pose proof Hm as (Haft & Hb & _)%match_at_inv.
  assert (String.rev_app b a = String.rev_app bef (u +:+ aft')) as Hpos.
  { rewrite Hb, Haft. by rewrite !rev_app_rev_app. }
  intros [<-|Hin].
  - exists (String.rev_app u bef), aft', (b, a). split; [|done].
    by rewrite rev_app_rev_app.
  - destruct (m_group m') eqn:Hg; [destruct a as [|x a]; [done|]|];
      apply IH in Hin as (bef' & aft'' & c & Hpos' & Hm'');
      exists bef', aft'', c; (split; [|done]); rewrite Hpos'; exact Hpos.
Qed.

Lemma rev_app_before (bef aft : string) :
  String.rev_app bef aft = String.rev bef +:+ aft.
Proof. unfold String.rev. by rewrite <- rev_app_append. Qed.

Lemma at_bol_before (bef : string) :
  at_bol bef = true ->
  String.rev bef = EmptyString \/ last_char (String.rev bef) = Some LF.
Proof.
  destruct bef as [|c bef]; [by left|]. cbn [at_bol]. intros ->%Ascii.eqb_eq.
  right. unfold String.rev. cbn [String.rev_app].
  change (String LF EmptyString) with (EmptyString +:+ String LF EmptyString).
  rewrite rev_app_append. by rewrite last_char_append.
Qed.

Lemma DEP_PAT_match_inv (bef aft : string) (m : Match) (c : string * string) :
  match_at DEP_PAT bef aft = Some (m, c) ->
  at_bol bef = true /\ at_eol (snd c) = true /\
  exists name ver,
    m_group m = name +:+ "==" +:+ ver /\
    m_groups m = [("name", name)] /\
    name <> EmptyString /\ all_chars name_char name = true /\
    ver <> EmptyString /\ all_chars not_newline ver = true.
Proof.
  unfold match_at, DEP_PAT, seq. cbn [foldr exec].
  destruct (at_bol bef) eqn:Hbol; [|done]. intros H. split; [done|].
  assert (exists name a,
            aft = name +:+ a /\ name <> EmptyString /\ all_chars name_char name = true /\
            exec (lit "==") (String.rev_app name bef) a
              [("name", taken bef (String.rev_app name bef))]
              (fun b a0 cs =>
                 rep_greedy not_newline 1 0 b a0
                   (fun b0 a1 =>
                      if at_eol a1
                      then Some (mkMatch (String.length bef) (taken bef b0) cs, (b0, a1))
                      else None))
            = Some (m, c)) as (name & a & -> & Hne & Hname & Hk).
  { match type of H with
    | match ?one with Some x => Some x | None => ?two end = _ =>
        destruct one as [y|] eqn:H1; [injection H as ->|]
    end.
    - destruct aft as [|t aft]; [done|]. destruct (is_ascii_alnum t) eqn:Ht; [|done].
      exists (String t EmptyString), aft.
      split_and!; [done|done| |exact H1].
      cbn [all_chars]. unfold name_char. by rewrite Ht.
    - destruct aft as [|t aft]; [done|]. destruct (is_ascii_alnum t) eqn:Ht; [|done].
      apply rep_greedy_inv in H as (v & a1 & -> & Hv & _ & H).
      destruct a1 as [|t2 a1]; [done|]. destruct (is_ascii_alnum t2) eqn:Ht2; [|done].
      exists (String t (v +:+ String t2 EmptyString)), a1.
      rewrite append_cons, append_assoc, append_cons, append_nil_l.
      split_and!; [done|done| |].
      + cbn [all_chars]. unfold name_char at 1. rewrite Ht. cbn [orb andb].
        clear -Hv Ht2. induction v as [|x v IH]; cbn [all_chars] in *.
        * rewrite append_nil_l. cbn [all_chars]. unfold name_char. by rewrite Ht2.
        * apply andb_prop in Hv as [Hx Hv]. rewrite append_cons. cbn [all_chars].
          rewrite Hx. cbn [andb]. auto.
      + cbn [String.rev_app]. rewrite <- rev_app_app. exact H. }
  apply lit_inv in Hk as (a2 & -> & H2).
  apply rep_greedy_inv in H2 as (ver & a3 & -> & Hver & Hmin & H3).
  destruct (at_eol a3) eqn:Heol; [|done]. injection H3 as <- <-.
  split; [done|].
  exists name, ver. cbn [m_group m_groups].
  change (String "="%char (String "="%char (String.rev_app name bef)))
    with (String.rev_app "==" (String.rev_app name bef)).
  rewrite !taken_rev_app, !rev_app_app, taken_rev_app, ?append_assoc.
  split_and!; [done|done|done|done| |done].
  intros ->. cbn in Hmin. lia.
Qed.

(** X15: what the pattern for compiled dependencies finds in a text of
    code points below 256.  Every match of [DEP_PAT] is a whole line
    [name==version] of the text: it begins at the start of the text or
    after a line feed and ends at the end of the text or before a line
    feed.  The name, its only group, is not empty and is made of characters
    of the class [[A-Z0-9._-]] taken ignoring case, which in such a text are
    the ASCII letters, the digits, the full stop, the underscore and the
    hyphen; so the full stop is the only character of a name that is not
    itself in the pattern [check_compilation] builds from it.  The version
    is not empty and has no line feed. *)
Theorem dependency_names_are_plain (text : string) (d : Match) :
  In d (finditer DEP_PAT text) ->
  exists before name ver after,
    text = before +:+ m_group d +:+ after /\
    (before = EmptyString \/ last_char before = Some LF) /\
    at_eol after = true /\
    m_group d = name +:+ "==" +:+ ver /\
    group d "name" = name /\ groups d = [name] /\
    name <> EmptyString /\ all_chars name_char name = true /\
    ver <> EmptyString /\ all_chars not_newline ver = true.
Proof.
  unfold finditer. intros (bef & aft & [b a] & Hpos & H)%finditer_from_at.
  pose proof H as (Haft & _ & _)%match_at_inv.
  apply DEP_PAT_match_inv
    in H as (Hbol & Heol & name & ver & Hg & Hgs & Hne & Hname & Hv & Hnl).
  exists (String.rev bef), name, ver, a.
  unfold group, group_named, groups. rewrite Hgs.
  split_and!; [|by apply at_bol_before|done..].
  cbn [String.rev_app] in Hpos. rewrite <- Hpos, Haft. apply rev_app_before.
Qed.

End DependencyNames.


Section Compiled.
Import Text Re Pat.
Context (E : Env).

Lemma pins_in_mono evs submodules a b :
  pins_in E evs submodules -> pins_in E (a ++ evs ++ b) submodules.
Proof.
  intros (Hnd & Hkeys & Hrevs). split_and!; [done|done|].
  intros path rev (res & Hin & Hrc & ->)%Hrevs. exists res.
  split_and!; [|done|done]. rewrite !runs_app, !in_app_iff. auto.
Qed.

Lemma compiled_in_mono evs p v h nd frag a b :
  compiled_in E evs p v h nd frag -> compiled_in E (a ++ evs ++ b) p v h nd frag.
Proof.
  intros (res & probe & uv & submodules & Hres & Hrc & Hprobe & Hprc & Huv & Hpins & ->).
  exists res, probe, uv, submodules.
  split_and!; [|done| |done|done|by apply pins_in_mono|done];
    rewrite !runs_app, !in_app_iff; auto.
Qed.

Lemma compile_compiled p v h nd w frag w' :
  compile E p v h nd w = (Ok frag, w') ->
  exists evs, trace w' = trace w ++ evs /\ compiled_in E evs p v h nd frag.
Proof.
  intros (submodules & w1 & uv & _ & Hrc & Hs & Hu & ->)%compile_Ok_steps.
  set (c := UvPipCompile p v h nd) in *.
  destruct (quiet_submodule_revs E (finditer SUBMODULE_REF (DEV_text E)) [] (tick E c w))
    as (evs1 & Ht1 & _).
  rewrite Hs in Ht1. cbn [snd] in Ht1.
  pose proof Hs as (Hnd & Hkeys & Hrevs)%submodule_revs_dict; [|constructor].
  rewrite (new_events_app _ _ _ Ht1) in Hrevs.
  apply get_uv_version_Ok in Hu as (Hprc & Huv & ->).
  exists (EvRun c (proc E (clock w) c) :: evs1
          ++ [EvRun UvVersion (proc E (clock w1) UvVersion)]).
  split.
  { cbn [tick trace]. rewrite Ht1. cbn [tick trace]. by rewrite <- !app_assoc. }
  exists (proc E (clock w) c), (proc E (clock w1) UvVersion), uv, submodules.
  change (runs (EvRun c ?r :: ?l)) with ((c, r) :: runs l).
  rewrite runs_app.
  split_and!; [by left|done| |done|done| |done].
  - right. apply in_app_iff. right. by left.
  - apply (pins_in_mono evs1 submodules [EvRun c (proc E (clock w) c)]
             [EvRun UvVersion (proc E (clock w1) UvVersion)]).
    split_and!; [done| |].
    + intros path. rewrite Hkeys. cbn. intuition.
    + intros path rev [[]|?]%Hrevs. done.
Qed.

Lemma lock_versions_compiled p versions high (d : gmap string string) s w
    (d' : gmap string string) s' w' :
  lock_versions E p versions high (d, s) w = (Ok (d', s'), w') ->
  exists evs,
    trace w' = trace w ++ evs /\
    forall key frag, d' !! key = Some frag ->
      d !! key = Some frag \/
      exists v, In v versions /\ key = get_compilation_key p v high /\
                compiled_in E evs p v high false frag.
Proof.
  revert d s w. induction versions as [|v versions IH]; intros d s w H.
  - cbn [lock_versions] in H. unfold ret in H. simplify_eq.
    exists []. rewrite app_nil_r. auto.
  - cbn [lock_versions] in H. unfold bind in H.
    destruct (compile E p v high false w) as [[c|e] w1] eqn:Hc; [|done].
    apply compile_compiled in Hc as (evs1 & Ht1 & Hc).
    apply IH in H as (evs2 & Ht2 & Hent).
    exists (evs1 ++ evs2). rewrite Ht2, Ht1, app_assoc. split; [done|].
    intros key frag [Hk|(v' & Hin & -> & Hcv)]%Hent.
    + destruct (decide (get_compilation_key p v high = key)) as [<-|Hne].
      * rewrite lookup_insert_eq in Hk. injection Hk as <-. right.
        exists v. split_and!; [by left|done|].
        apply (compiled_in_mono _ _ _ _ _ _ [] evs2) in Hc. exact Hc.
      * rewrite lookup_insert_ne in Hk by done. by left.
    + right. exists v'. split_and!; [by right|done|].
      apply (compiled_in_mono _ _ _ _ _ _ evs1 []) in Hcv.
      by rewrite app_nil_r in Hcv.
Qed.

Lemma lock_platforms_compiled platforms high (d : gmap string string) s w
    (d' : gmap string string) s' w' :
  lock_platforms E platforms high (d, s) w = (Ok (d', s'), w') ->
  exists evs,
    trace w' = trace w ++ evs /\
    forall key frag, d' !! key = Some frag ->
      d !! key = Some frag \/
      exists p v, In p platforms /\ In v (PYTHON_VERSIONS E) /\
                  key = get_compilation_key p v high /\
                  compiled_in E evs p v high false frag.
Proof.
  revert d s w. induction platforms as [|p platforms IH]; intros d s w H.
  - cbn [lock_platforms] in H. unfold ret in H. simplify_eq.
    exists []. rewrite app_nil_r. auto.
  - cbn [lock_platforms] in H. unfold bind in H.
    destruct (lock_versions E p (PYTHON_VERSIONS E) high (d, s) w)
      as [[[d1 s1]|e] w1] eqn:Hv; [|done].
    apply lock_versions_compiled in Hv as (evs1 & Ht1 & Hent1).
    apply IH in H as (evs2 & Ht2 & Hent2).
    exists (evs1 ++ evs2). rewrite Ht2, Ht1, app_assoc. split; [done|].
    intros key frag [Hk|(p' & v & Hp & Hv & -> & Hc)]%Hent2.
    + apply Hent1 in Hk as [Hk|(v & Hv & -> & Hc)]; [by left|]. right.
      exists p, v. split_and!; [by left|done|done|].
      apply (compiled_in_mono _ _ _ _ _ _ [] evs2) in Hc. exact Hc.
    + right. exists p', v. split_and!; [by right|done|done|].
      apply (compiled_in_mono _ _ _ _ _ _ evs1 []) in Hc.
      by rewrite app_nil_r in Hc.
Qed.

(** What a [lock] that returns has stored: for every supported pair the
    fragment compiled for that pair in its run. *)
Lemma lock_stored_compiled high s w r w' :
  lock E high s w = (Ok r, w') ->
  exists (lock_contents : gmap string string) evs,
    dom lock_contents = lock_keys E high /\
    fs w' = <[get_lockfile high := dumps E lock_contents +:+ nl]> (fs w) /\
    trace w' = trace w ++ [EvLock high s] ++ evs
               ++ [EvWrite (get_lockfile high) (dumps E lock_contents +:+ nl)] /\
    Forall is_run evs /\ Forall run_event_ok evs /\
    (r = s \/
     (s = EmptyString /\ In (SYS_PLATFORM E) PLATFORMS /\
      In (SYS_PYTHON_VERSION E) (PYTHON_VERSIONS E))) /\
    forall p v, In p PLATFORMS -> In v (PYTHON_VERSIONS E) ->
      exists fragment,
        lock_contents !! get_compilation_key p v high = Some fragment /\
        fragment <> EmptyString /\
        compiled_in E evs p v high false fragment.
Proof.
  intros H. rewrite lock_unfold in H.
  set (w1 := mkWorld _ _ _) in H.
  destruct (quiet_lock_platforms E PLATFORMS high (∅, s) w1)
    as (evs & Ht & Hf & _ & Hr & Hb).
  destruct (lock_platforms E PLATFORMS high (∅, s) w1) as [[[d s']|e] w2] eqn:Hl; [|done].
  simplify_eq. cbn [fst snd] in Ht, Hf, Hb.
  pose proof Hl as (evs' & Ht' & Hent)%lock_platforms_compiled.
  rewrite Ht in Ht'. apply app_inv_head in Ht' as <-.
  apply (lock_platforms_ok E (fun f => f <> EmptyString)) in Hl as (Hd & Hdom & Hs);
    [|intros p v w3 frag w4; apply compile_nonempty|apply map_Forall_empty].
  assert (dom d = lock_keys E high) as Hkeys.
  { rewrite Hdom, dom_empty_L. unfold lock_keys. by rewrite (left_id_L ∅ (∪)). }
  exists d, evs. cbn [fs trace]. rewrite Hf, Ht. subst w1. cbn [fs trace].
  rewrite <- !app_assoc.
  split_and!; [done|done|done|done|done| |].
  - destruct Hs as [->|(-> & Hp & Hv & _)]; [by left|by right].
  - intros p v Hp Hv.
    assert (is_Some (d !! get_compilation_key p v high)) as [fragment Hf'].
    { apply elem_of_dom. rewrite Hkeys. unfold lock_keys.
      apply elem_of_list_to_set, list_elem_of_In, in_flat_map.
      exists p. split; [done|]. apply in_map_iff. by exists v. }
    exists fragment. split_and!; [done|by eapply Hd|].
    destruct (Hent _ _ Hf') as [Hempty|(p' & v' & Hp' & Hv' & Hkey & Hc)]; [done|].
    destruct (decide (p = p' /\ v = v')) as [[-> ->]|Hne]; [done|].
    by destruct (get_compilation_key_neq p v p' v' high Hp Hp' Hne).
Qed.

End Compiled.


Section Fragments.
Import Text Re Pat.
Context (E : Env).

Lemma first_line_split (s : string) :
  all_chars not_newline (first_line s) = true /\
  (s = first_line s \/ exists rest, s = first_line s +:+ String LF rest).
Proof.
  induction s as [|c s [IH1 IH2]]; [by split; [|left]|].
  cbn [first_line]. destruct (chr_eqb c LF) eqn:Hc.
  - split; [done|]. right. exists s. apply Ascii.eqb_eq in Hc as ->. done.
  - cbn [all_chars]. unfold not_newline at 1. rewrite Hc, IH1. split; [done|].
    destruct IH2 as [IH2|[rest IH2]]; [left|right; exists rest];
      rewrite append_cons || idtac; by rewrite <- IH2.
Qed.

(** The text of a fragment, cut after the first line of the version. *)
Lemma header_first_line (uv tail : string) :
  exists rest,
    "# uv " +:+ uv +:+ nl +:+ tail = "# uv " +:+ first_line uv +:+ nl +:+ rest.
Proof.
  destruct (first_line_split uv) as [_ [Huv|[r Huv]]].
  - exists tail. by rewrite <- Huv.
  - exists (r +:+ nl +:+ tail). rewrite Huv at 1. by rewrite !append_assoc.
Qed.

Lemma match_at_blank_header (rest : string) :
  match_at UV_PAT EmptyString ("# uv " +:+ nl +:+ rest) = None.
Proof. reflexivity. Qed.

Lemma body_line_last_char submodules deps nodeps x :
  Forall stripped submodules ->
  In x (map pin_line submodules ++ map strip (splitlines deps)
        ++ map strip (splitlines nodeps)) ->
  last_char x <> Some LF.
Proof.
  intros Hs. rewrite !in_app_iff, !in_map_iff.
  intros [(sr & <- & Hin)|[(s & <- & _)|(s & <- & _)]].
  - apply pin_line_last_char. rewrite List.Forall_forall in Hs. auto.
  - apply strip_last_char.
  - apply strip_last_char.
Qed.

Lemma trailing_newlines_any uv submodules deps nodeps :
  Forall stripped submodules ->
  let lines := fragment_lines uv submodules deps nodeps in
  last_char (join nl lines) = Some LF <->
  last lines = Some EmptyString \/
  (lines = ["# uv " +:+ uv] /\ last_char uv = Some LF).
Proof.
  intros Hs lines. unfold lines, fragment_lines. cbn [app].
  set (rest := map pin_line submodules ++ _).
  assert (forall x, In x rest -> last_char x <> Some LF) as Hrest.
  { intros x. by apply body_line_last_char. }
  clearbody rest. destruct (last rest) as [x|] eqn:Hlast.
  - apply last_Some in Hlast as [l ->].
    assert (last_char x <> Some LF) as Hx.
    { apply Hrest, in_app_iff. right. by left. }
    change (("# uv " +:+ uv) :: l ++ [x]) with ((("# uv " +:+ uv) :: l) ++ [x]).
    rewrite join_snoc by done. rewrite last_snoc, <- append_assoc.
    destruct x as [|c x].
    + rewrite append_nil_r, last_char_append by done. split; [by left|done].
    + rewrite last_char_append by done. split; [done|].
      intros [[=]|[H _]]. by destruct l.
  - apply last_None in Hlast as ->. cbn [join last].
    destruct uv as [|c uv].
    + split; [by vm_compute|]. intros [[=]|[_ [=]]].
    + rewrite last_char_append by done. split; [by right|].
      intros [[=]|[_ H]]; done.
Qed.

(** C8, as amended: a fragment [compile] returns is the header line of
    the probed version, then one pin line for every submodule path the
    development requirements refer to, with the revision [git rev-parse]
    printed for it, then the resolver's lines, then the uncompiled lines,
    every line followed by one line feed.  Its first line matches
    [UV_PAT], from the start of the text, exactly when the first line of
    the probed version is not empty.  The fragment ends with a line feed,
    and with a second one exactly when its last line is blank or, the
    header being its only line, the probed version ends with a line
    feed. *)
Theorem compile_fragment_format p v h nd w frag w' :
  compile E p v h nd w = (Ok frag, w') ->
  let c := UvPipCompile p v h nd in
  exists uv submodules w1 body,
    let lines := fragment_lines uv submodules (stdout (proc E (clock w) c))
                   (NODEPS_text E) in
    submodule_revs E (finditer SUBMODULE_REF (DEV_text E)) [] (tick E c w)
    = (Ok submodules, w1) /\
    pins_in E (new_events w w') submodules /\
    get_uv_version E w1 = (Ok uv, w') /\
    frag = unlines lines /\
    (first_line uv <> EmptyString ->
     search UV_PAT frag
     = Some (mkMatch 0 ("# uv " +:+ first_line uv) [("version", first_line uv)])) /\
    (first_line uv = EmptyString -> match_at UV_PAT EmptyString frag = None) /\
    frag = body +:+ nl /\
    (last_char body = Some LF <->
     last lines = Some EmptyString \/
     (lines = ["# uv " +:+ uv] /\ last_char uv = Some LF)).
Proof.
  intros H. cbv zeta.
  pose proof H as (evs & Ht & Hc)%compile_compiled.
  pose proof H as (submodules & w1 & uv & _ & _ & Hs & Hu & ->)%compile_Ok_steps.
  exists uv, submodules, w1.
  eexists (join nl (fragment_lines uv submodules _ (NODEPS_text E))).
  assert (pins_in E (new_events w w') submodules) as Hpins.
  { rewrite (new_events_app _ _ _ Ht).
    pose proof Hs as (Hnd & Hkeys & Hrevs)%submodule_revs_dict; [|constructor].
    destruct (quiet_submodule_revs E (finditer SUBMODULE_REF (DEV_text E)) []
                (tick E (UvPipCompile p v h nd) w)) as (evs1 & Ht1 & _).
    rewrite Hs in Ht1. cbn [snd] in Ht1.
    rewrite (new_events_app _ _ _ Ht1) in Hrevs.
    apply get_uv_version_Ok in Hu as (_ & _ & ->).
    cbn [tick trace] in Ht. rewrite Ht1 in Ht. cbn [tick trace] in Ht.
    rewrite <- !app_assoc in Ht. apply app_inv_head in Ht as <-.
    apply (pins_in_mono E evs1 submodules [_] [_]).
    split_and!; [done| |].
    - intros path. rewrite Hkeys. cbn. intuition.
    - intros path rev [[]|?]%Hrevs. done. }
  destruct (header_first_line uv
              (unlines (map pin_line submodules
                        ++ map strip (splitlines (stdout (proc E (clock w)
                                                     (UvPipCompile p v h nd))))
                        ++ map strip (splitlines (NODEPS_text E))))) as [rest Hrest].
  assert (unlines (fragment_lines uv submodules
                     (stdout (proc E (clock w) (UvPipCompile p v h nd))) (NODEPS_text E))
          = "# uv " +:+ first_line uv +:+ nl +:+ rest) as Hfrag.
  { unfold fragment_lines. cbn [app]. by rewrite unlines_cons, append_assoc. }
  split_and!; [done|done|done|done| | | |].
  - intros Hne. rewrite Hfrag. apply search_header; [done|].
    apply first_line_split.
  - intros Hempty. rewrite Hfrag, Hempty. apply match_at_blank_header.
  - unfold fragment_lines. cbn [app]. by rewrite join_unlines.
  - apply trailing_newlines_any. eapply submodule_revs_stripped; [exact Hs|constructor].
Qed.

End Fragments.


Section Relocking.
Import Text Re Pat.
Context (E : Env).

(** C7: [lock] writes the store once, after every pair has been compiled,
    or not at all.  When it returns, it has run every command line of
    every supported pair, all with exit code zero, and its one write, the
    last thing it does, holds under the key of every supported pair the
    fragment compiled for that pair from the resolver's output in this
    run.  When it raises, no file has changed and it has run the first of
    these command lines only.  A subprocess that exits with a non-zero
    code makes it raise, with an exception that carries the error stream
    of that subprocess. *)
Theorem lock_all_or_nothing high sys_compilation w :
  let res := lock E high sys_compilation w in
  exists evs,
    trace (snd res) = trace w ++ EvLock high sys_compilation :: evs /\
    (forall c r, In (c, r) (runs evs) -> returncode r <> 0%Z ->
       exists e, fst res = Raise e /\ error_text e = Some (stderr r)) /\
    match fst res with
    | Ok _ =>
        map fst (runs evs) = lock_commands E high /\
        exists lock_contents : gmap string string,
          dom lock_contents = lock_keys E high /\
          (forall p v, In p PLATFORMS -> In v (PYTHON_VERSIONS E) ->
             exists fragment,
               lock_contents !! get_compilation_key p v high = Some fragment /\
               fragment <> EmptyString /\
               compiled_in E evs p v high false fragment) /\
          writes evs = [(get_lockfile high, dumps E lock_contents +:+ nl)] /\
          last evs = Some (EvWrite (get_lockfile high) (dumps E lock_contents +:+ nl)) /\
          fs (snd res) = <[get_lockfile high := dumps E lock_contents +:+ nl]> (fs w)
    | Raise _ =>
        writes evs = [] /\ fs (snd res) = fs w /\
        map fst (runs evs) `prefix_of` lock_commands E high
    end.
Proof.
  cbv zeta.
  destruct (runs_within_lock E high sys_compilation w) as (evs0 & Ht0 & Hcmds).
  destruct (lock E high sys_compilation w) as [[r|e] w'] eqn:H; cbn [fst snd] in *.
  - apply lock_stored_compiled in H
      as (d & evs & Hdom & Hfs & Ht & Hr & Hok & _ & Hstored).
    exists (evs ++ [EvWrite (get_lockfile high) (dumps E d +:+ nl)]).
    rewrite Ht in Ht0. apply app_inv_head in Ht0 as <-.
    apply only_runs in Hr as (_ & _ & Hw).
    split_and!; [done| |done|].
    + intros c res Hin Hrc. rewrite runs_app in Hin. cbn in Hin.
      rewrite app_nil_r in Hin. destruct Hrc. eapply runs_all_ok; eauto.
    + exists d. rewrite writes_app, Hw. split_and!; [done| |done|apply last_snoc|done].
      intros p v Hp Hv. destruct (Hstored p v Hp Hv) as (fragment & Hf & Hne & Hc).
      exists fragment. split_and!; [done|done|].
      exact (compiled_in_mono E evs p v high false fragment []
               [EvWrite (get_lockfile high) (dumps E d +:+ nl)] Hc).
  - apply lock_raise in H as (evs & Hfs & Ht & Hr & Hb).
    exists evs. rewrite Ht in Ht0. apply app_inv_head in Ht0 as <-.
    apply only_runs in Hr as (_ & _ & Hw).
    split_and!; [done| |done|done|done].
    intros c res Hin Hrc.
    destruct (failed_by_run _ _ _ _ Hb Hin Hrc) as (e' & [= <-] & Htxt). eauto.
Qed.


End Relocking.


Section MoreInstances.
Import Text Re Pat Examples Cases.

Lemma get_compilation_key_inj_witness : "linux" = "linux" /\ "3.11" = "3.11".
Proof.
  apply (get_compilation_key_inj "linux" "3.11" "linux" "3.11" false).
  - vm_compute. auto.
  - vm_compute. auto.
  - reflexivity.
Defined.

Lemma lock_writes_one_entry_per_pair_witness :
  exists lock_contents : gmap string string,
    fs (snd (lock unchanged_env false EmptyString empty_world)) !! get_lockfile false
    = Some (dumps unchanged_env lock_contents +:+ nl) /\
    size lock_contents = length PLATFORMS * length (PYTHON_VERSIONS unchanged_env) /\
    forall p v, In p PLATFORMS -> In v (PYTHON_VERSIONS unchanged_env) ->
      is_Some (lock_contents !! get_compilation_key p v false).
Proof.
  eapply (lock_writes_one_entry_per_pair unchanged_env false EmptyString empty_world).
  - apply (bool_decide_unpack _). vm_compute. exact I.
  - vm_compute. reflexivity.
Defined.

Lemma lock_returns_stored_witness :
  exists lock_contents : gmap string string,
    fs (snd (lock unchanged_env false EmptyString empty_world)) !! get_lockfile false
    = Some (dumps unchanged_env lock_contents +:+ nl) /\
    lock_contents !! key_sys unchanged_env false = Some unchanged_fragment /\
    unchanged_fragment <> EmptyString.
Proof.
  eapply (lock_returns_stored unchanged_env false empty_world unchanged_fragment).
  - vm_compute. auto.
  - vm_compute. auto.
  - apply (bool_decide_unpack _). vm_compute. exact I.
  - vm_compute. reflexivity.
Defined.

Lemma lock_then_get_compilation_witness :
  let w' := snd (lock relocked_env false EmptyString empty_world) in
  get_compilation relocked_env "macos" "3.12" false w' = (Ok (VStr unchanged_fragment), w').
Proof.
  cbv zeta.
  edestruct (lock_then_get_compilation relocked_env false EmptyString empty_world)
    as (_ & H); [vm_compute; reflexivity ..|].
  destruct (H "macos" "3.12") as (fragment & Hf & _ & Hget);
    [vm_compute; auto ..|].
  vm_compute in Hf. injection Hf as <-. exact Hget.
Defined.

Lemma collected_line_has_the_name_witness :
  exists before found ver after,
    unchanged_fragment = before +:+ m_group foo_line +:+ after /\
    (before = EmptyString \/ last_char before = Some LF) /\
    at_eol after = true /\
    m_group foo_line = found +:+ "==" +:+ ver /\
    name_matches "foo" found = true /\
    (all_chars not_full_stop "foo" = true -> lowercase found = lowercase "foo") /\
    ver <> EmptyString /\ all_chars not_newline ver = true.
Proof.
  apply (collected_line_has_the_name "foo" unchanged_fragment foo_line).
  vm_compute. reflexivity.
Defined.

Lemma same_full_fragment_is_compatible_witness :
  exists w',
    check_compilation unchanged_env false unchanged_world = (Ok unchanged_fragment, w') /\
    fs w' = fs unchanged_world /\
    sites (new_events unchanged_world w') = [Old_compilation_compatible] /\
    locks (new_events unchanged_world w') = [].
Proof.
  eapply (same_full_fragment_is_compatible unchanged_env false unchanged_world
            unchanged_fragment).
  - vm_compute; reflexivity.
  - vm_compute; reflexivity.
  - vm_compute; reflexivity.
  - vm_compute; reflexivity.
  - vm_compute; reflexivity.
  - vm_compute; reflexivity.
  - intros d H. vm_compute in H. destruct H as [<-|[]]. vm_compute. eauto.
  - vm_compute; reflexivity.
Defined.

Lemma pin_line_round_trip_witness :
  exists m c,
    match_at SUB_PAT EmptyString
      (pin_line ("submodules/" +:+ "typings", "aaa111") +:+ nl +:+ "foo==1.0")
    = Some (m, c) /\
    m_group m = pin_line ("submodules/" +:+ "typings", "aaa111") /\
    groups m = ["typings"; "aaa111"].
Proof.
  apply (pin_line_round_trip EmptyString "typings" "aaa111" "foo==1.0").
  - reflexivity.
  - discriminate.
  - vm_compute. reflexivity.
  - discriminate.
  - vm_compute. reflexivity.
Defined.

Lemma submodule_revs_one_pin_per_path_witness :
  let subs := finditer SUBMODULE_REF (DEV_text moved_env) in
  let submodules := [("submodules/typings", "bbb222")] in
  let w' := snd (submodule_revs moved_env subs [] empty_world) in
  List.NoDup (map fst submodules) /\
  (forall path, In path (map fst submodules) <-> In path (map m_group subs)) /\
  forall path rev, In (path, rev) submodules ->
    exists res, In (GitRevParse path, res) (runs (new_events empty_world w')) /\
                returncode res = 0%Z /\ rev = strip (stdout res).
Proof.
  cbv zeta.
  apply (submodule_revs_one_pin_per_path moved_env
           (finditer SUBMODULE_REF (DEV_text moved_env)) empty_world).
  vm_compute. reflexivity.
Defined.

Lemma missing_entry_relocks_witness :
  let res := check_compilation unchanged_env false empty_world in
  res = returning Old_compilation_missing (lock unchanged_env false EmptyString) empty_world /\
  exists evs,
    new_events empty_world (snd res)
    = EvReturn Old_compilation_missing :: EvLock false EmptyString :: evs /\
    sites evs = [] /\ locks evs = [].
Proof.
  apply (missing_entry_relocks unchanged_env false empty_world).
  left. vm_compute. reflexivity.
Defined.

Lemma mistyped_store_raises_witness :
  check_compilation listed_env false listed_world = (Raise AttributeError, listed_world).
Proof.
  apply (mistyped_store_raises listed_env false listed_world "[]").
  - vm_compute. reflexivity.
  - left. split; [vm_compute; reflexivity|reflexivity].
Defined.

Lemma dependency_names_are_plain_witness :
  exists before name ver after,
    unchanged_fragment = before +:+ m_group foo_dependency +:+ after /\
    (before = EmptyString \/ last_char before = Some LF) /\
    at_eol after = true /\
    m_group foo_dependency = name +:+ "==" +:+ ver /\
    group foo_dependency "name" = name /\ groups foo_dependency = [name] /\
    name <> EmptyString /\ all_chars name_char name = true /\
    ver <> EmptyString /\ all_chars not_newline ver = true.
Proof.
  apply (dependency_names_are_plain unchanged_fragment foo_dependency).
  vm_compute. left. reflexivity.
Defined.

Lemma compile_fragment_format_witness :
  let c := UvPipCompile "linux" "3.11" false false in
  let w' := snd (compile moved_env "linux" "3.11" false false empty_world) in
  exists uv submodules w1 body,
    let lines := fragment_lines uv submodules
                   (stdout (proc moved_env (clock empty_world) c))
                   (NODEPS_text moved_env) in
    submodule_revs moved_env (finditer SUBMODULE_REF (DEV_text moved_env)) []
      (tick moved_env c empty_world)
    = (Ok submodules, w1) /\
    pins_in moved_env (new_events empty_world w') submodules /\
    get_uv_version moved_env w1 = (Ok uv, w') /\
    unlines ["# uv 1.2.0"; "# submodules/typings bbb222"; "foo==1.0"] = unlines lines /\
    (first_line uv <> EmptyString ->
     search UV_PAT (unlines ["# uv 1.2.0"; "# submodules/typings bbb222"; "foo==1.0"])
     = Some (mkMatch 0 ("# uv " +:+ first_line uv) [("version", first_line uv)])) /\
    (first_line uv = EmptyString ->
     match_at UV_PAT EmptyString
       (unlines ["# uv 1.2.0"; "# submodules/typings bbb222"; "foo==1.0"]) = None) /\
    unlines ["# uv 1.2.0"; "# submodules/typings bbb222"; "foo==1.0"] = body +:+ nl /\
    (last_char body = Some LF <->
     last lines = Some EmptyString \/
     (lines = ["# uv " +:+ uv] /\ last_char uv = Some LF)).
Proof.
  apply (compile_fragment_format moved_env "linux" "3.11" false false empty_world).
  vm_compute. reflexivity.
Defined.


End MoreInstances.
